(** * GLBGCN backbone (mmaction/models/backbones/gblgcn.py)

    A shallow embedding of [GLBGCNBlock], [ConvTemporalGraphical] and
    [GLBGCN].  The network code is written once, over an interface of
    tensor operations ([Torch]); it is then read in two ways:

    - over shapes only ([ShapeTorch]): every operation computes the size
      of its result or raises the exception torch raises;
    - over a store of tensor storages ([HeapTorch]): tensors are strided
      views of storages, in-place operations write through the view, the
      numeric kernels of the layers are parameters.

    Element type, layer parameters and numeric kernels are section
    variables: nothing below depends on floating-point arithmetic. *)

From Stdlib Require Import List Arith ZArith Lia Bool.
From stdpp Require Import base list strings.

Set Implicit Arguments.
Unset Strict Implicit.

(** ** Python exceptions and the result type *)

Inductive error : Type :=
| AssertionError
| TypeError
| ValueError
| IndexError
| RuntimeError
| ZeroDivisionError.

Inductive result (A : Type) : Type :=
| Ok (a : A)
| Err (e : error).
Arguments Ok {A} a.
Arguments Err {A} e.

Definition result_bind {A B} (r : result A) (k : A -> result B) : result B :=
  match r with
  | Ok a => k a
  | Err e => Err e
  end.

Definition result_map {A B} (f : A -> B) (r : result A) : result B :=
  match r with
  | Ok a => Ok (f a)
  | Err e => Err e
  end.

Definition is_ok {A} (r : result A) : bool :=
  match r with Ok _ => true | Err _ => false end.

Declare Scope result_scope.
Delimit Scope result_scope with res.
Notation "x <- c ;; k" := (result_bind c (fun x => k))
  (at level 100, c at next level, right associativity) : result_scope.

(** A Python object, as far as [isinstance(_, str)] and [_ is None] can
    tell. *)
Inductive pyobj : Type :=
| PyNone
| PyStr (s : string)
| PyOther (tag : nat).

(** ** Shapes *)

Definition shape := list nat.

Definition numel (s : shape) : nat := fold_right Nat.mul 1 s.

Fixpoint shape_eqb (a b : shape) : bool :=
  match a, b with
  | [], [] => true
  | x :: a', y :: b' => (x =? y) && shape_eqb a' b'
  | _, _ => false
  end.

(** Python slice normalisation of one bound against a length. *)
Definition norm_bound (len : nat) (z : Z) : Z :=
  if (z <? 0)%Z then Z.max 0 (z + Z.of_nat len) else Z.min z (Z.of_nat len).

(** [seq[start:stop]]: first index kept and number of elements kept. *)
Definition slice_bounds (len : nat) (start stop : option Z) : nat * nat :=
  let a := norm_bound len (default 0%Z start) in
  let b := norm_bound len (default (Z.of_nat len) stop) in
  (Z.to_nat a, Z.to_nat (b - a)).

(** [x[:, .., a:b, .., :]] written with [nidx] index positions, slicing
    dimension [dim]. *)
Definition sh_slice (nidx dim : nat) (start stop : option Z) (s : shape)
  : result shape :=
  if length s <? nidx then Err IndexError
  else match s !! dim with
       | None => Err IndexError
       | Some len => Ok (<[dim := snd (slice_bounds len start stop)]> s)
       end.

(** [x[:, .., -1]]: the last entry of dimension [dim], which disappears. *)
Definition sh_select_last (dim : nat) (s : shape) : result shape :=
  match s !! dim with
  | None => Err IndexError
  | Some len => if len =? 0 then Err IndexError else Ok (delete dim s)
  end.

Definition sh_unsqueeze (dim : nat) (s : shape) : result shape :=
  if dim <=? length s then Ok (take dim s ++ 1 :: drop dim s)
  else Err IndexError.

Definition is_perm_of_rank (dims : list nat) (n : nat) : bool :=
  (length dims =? n) &&
  forallb (fun i => existsb (Nat.eqb i) dims) (seq 0 n).

Definition sh_permute (dims : list nat) (s : shape) : result shape :=
  if is_perm_of_rank dims (length s)
  then Ok (map (fun d => nth d s 0) dims)
  else Err RuntimeError.

Definition sh_view (new : shape) (s : shape) : result shape :=
  if numel new =? numel s then Ok new else Err RuntimeError.

(** [torch.mean] / [torch.amax] over [dim] with [keepdim=True]; [amax]
    refuses an empty reduction dimension. *)
Definition sh_reduce_keepdim (nonempty : bool) (dim : nat) (s : shape)
  : result shape :=
  match s !! dim with
  | None => Err IndexError
  | Some len =>
      if nonempty && (len =? 0) then Err IndexError else Ok (<[dim := 1]> s)
  end.

Definition sh_cat (dim : nat) (a b : shape) : result shape :=
  match a !! dim, b !! dim with
  | Some x, Some y =>
      if shape_eqb (<[dim := 0]> a) (<[dim := 0]> b)
      then Ok (<[dim := x + y]> a)
      else Err RuntimeError
  | _, _ => Err RuntimeError
  end.

(** Broadcasting, on the reversed shapes (trailing dimensions first). *)
Fixpoint broadcast_rev (a b : shape) : result shape :=
  match a, b with
  | [], _ => Ok b
  | _, [] => Ok a
  | x :: a', y :: b' =>
      if x =? y then result_map (cons x) (broadcast_rev a' b')
      else if x =? 1 then result_map (cons y) (broadcast_rev a' b')
      else if y =? 1 then result_map (cons x) (broadcast_rev a' b')
      else Err RuntimeError
  end.

Definition sh_broadcast (a b : shape) : result shape :=
  result_map (@rev nat) (broadcast_rev (rev a) (rev b)).

(** [a += b]: the broadcast result must have the shape of [a]. *)
Definition sh_iadd (a b : shape) : result shape :=
  result_bind (sh_broadcast a b)
    (fun r => if shape_eqb r a then Ok a else Err RuntimeError).

Definition broadcastable (p q : nat) : bool :=
  (p =? q) || (p =? 1) || (q =? 1).

Definition bsize (p q : nat) : nat := if p =? 1 then q else p.

(** [torch.einsum('nkctv,kvw->nctw', (x, a))]. *)
Definition sh_einsum (x a : shape) : result shape :=
  match x, a with
  | [n; k; c; t; v], [k'; v'; w] =>
      if broadcastable k k' && broadcastable v v'
      then Ok [n; c; t; w] else Err RuntimeError
  | _, _ => Err RuntimeError
  end.

Section Network.

(** Tensor elements (float32 in the source) and the learnable state of
    one layer (weight, bias, running statistics). *)
Variable R : Type.
Variable W : Type.

(** Conversion of a Python integer to an element ([0], [1]). *)
Variable rofZ : Z -> R.

(** A constant tensor: a registered buffer or a parameter. *)
Record value : Type := Value { vshape : shape; vdata : list R }.

(** ** Layers of [torch.nn] *)

Record Conv2d : Type := {
  conv_in : nat;
  conv_out : nat;
  conv_kernel : nat * nat;
  conv_stride : nat * nat;
  conv_padding : nat * nat;
  conv_dilation : nat * nat;
  conv_w : W
}.

Inductive bn_kind : Type := BN1d | BN2d.

Record BatchNorm : Type := {
  bn_dim : bn_kind;
  num_features : nat;
  bn_training : bool;
  bn_w : W
}.

Record Linear : Type := {
  in_features : nat;
  out_features : nat;
  lin_w : W
}.

Record Dropout : Type := {
  drop_p : R;
  drop_inplace : bool;
  drop_training : bool
}.

Inductive layer : Type :=
| LConv2d (c : Conv2d)
| LBatchNorm (b : BatchNorm)
| LReLU (inplace : bool)
| LDropout (d : Dropout).

(** Output length of a convolution along one axis. *)
Definition conv_out_size (len k stride pad dil : nat) : result nat :=
  if (k =? 0) || (stride =? 0) then Err RuntimeError
  else let eff := dil * (k - 1) + 1 in
       if len + 2 * pad <? eff then Err RuntimeError
       else Ok ((len + 2 * pad - eff) / stride + 1).

Definition sh_conv2d (c : Conv2d) (s : shape) : result shape :=
  match s with
  | [n; ci; h; w] =>
      if ci =? conv_in c then
        result_bind
          (conv_out_size h (fst (conv_kernel c)) (fst (conv_stride c))
             (fst (conv_padding c)) (fst (conv_dilation c)))
          (fun h' =>
             result_bind
               (conv_out_size w (snd (conv_kernel c)) (snd (conv_stride c))
                  (snd (conv_padding c)) (snd (conv_dilation c)))
               (fun w' => Ok [n; conv_out c; h'; w']))
      else Err RuntimeError
  | _ => Err RuntimeError
  end.

(** [_check_input_dim], then [_verify_batch_size] when training, then
    the check of the channel count against [num_features]. *)
Definition sh_batch_norm (b : BatchNorm) (s : shape) : result shape :=
  let rank_ok :=
    match bn_dim b with
    | BN1d => (length s =? 2) || (length s =? 3)
    | BN2d => length s =? 4
    end in
  if negb rank_ok then Err ValueError
  else match s with
       | n :: c :: rest =>
           if bn_training b && (n * numel rest =? 1) then Err ValueError
           else if c =? num_features b then Ok s else Err RuntimeError
       | _ => Err ValueError
       end.

Definition sh_linear (l : Linear) (s : shape) : result shape :=
  match last s with
  | None => Err RuntimeError
  | Some d =>
      if d =? in_features l
      then Ok (removelast s ++ [out_features l])
      else Err RuntimeError
  end.

(** An entry of [edge_importance]: a learnable tensor, or the Python
    integer of the list built when the weighting is off. *)
Inductive importance : Type :=
| ImpParam (p : value)
| ImpInt (z : Z).

Definition sh_mul_importance (a : value) (imp : importance) : result shape :=
  match imp with
  | ImpParam p => sh_broadcast (vshape a) (vshape p)
  | ImpInt _ => Ok (vshape a)
  end.

(** ** The interface of tensor operations *)

Class Torch (M : Type -> Type) (T : Type) : Type := {
  ret : forall {A}, A -> M A;
  bind : forall {A B}, M A -> (A -> M B) -> M B;
  raise : forall {A}, error -> M A;
  size : T -> shape;
  to_float : T -> M T;
  slice : nat -> nat -> option Z -> option Z -> T -> M T;
  select_last : nat -> T -> M T;
  unsqueeze : nat -> T -> M T;
  permute : list nat -> T -> M T;
  contiguous : T -> M T;
  view : shape -> T -> M T;
  mean_keepdim : nat -> T -> M T;
  amax_keepdim : nat -> T -> M T;
  cat : nat -> T -> T -> M T;
  add : T -> T -> M T;
  add_int : T -> Z -> M T;
  iadd : T -> T -> M T;
  mul_importance : value -> importance -> M T;
  einsum_nkctv_kvw_nctw : T -> T -> M T;
  batch_norm : BatchNorm -> T -> M T;
  linear : Linear -> T -> M T;
  conv2d : Conv2d -> T -> M T;
  relu : bool -> T -> M T;
  dropout : Dropout -> T -> M T
}.

Declare Scope torch_scope.
Delimit Scope torch_scope with torch.
Notation "x <- c ;; k" := (bind c (fun x => k))
  (at level 100, c at next level, right associativity) : torch_scope.
Local Open Scope torch_scope.

(** ** Modules of the repository *)

Record ConvTemporalGraphical : Type := {
  kernel_size : nat;
  conv : Conv2d
}.

(** What [self.residual] is bound to: the function [zero], the function
    [identity], or an [nn.Sequential]. *)
Inductive residual_fn : Type :=
| Fzero
| Fidentity
| Fsequential (ls : list layer).

Record GLBGCNBlock : Type := {
  gcn : ConvTemporalGraphical;
  tcn : list layer;
  residual : residual_fn;
  relu_layer : layer
}.

Record GLBGCN : Type := {
  A : value;
  in_channel : nat;
  reduction : string;
  data_bn : option BatchNorm;
  data_bn_feature : option BatchNorm;
  st_gcn_networks : list GLBGCNBlock;
  feature_transform : list Linear;
  feature_residue : list Linear;
  edge_importance : list importance;
  edge_is_parameter_list : bool;
  pretrained : pyobj
}.

(** ** Construction *)

(** The learnable state handed to a block and to the backbone when they
    are built (torch draws it at random). *)
Record block_params : Type := {
  w_gcn_conv : W;
  w_tcn_bn1 : W;
  w_tcn_conv : W;
  w_tcn_bn2 : W;
  w_res_conv : W;
  w_res_bn : W
}.

Record net_params : Type := {
  w_data_bn : W;
  w_data_bn_feature : W;
  w_block : nat -> block_params;
  w_transform : nat -> W;
  w_residue : nat -> W
}.

(** [ConvTemporalGraphical.__init__]. *)
Definition ConvTemporalGraphical_init
    (in_channels out_channels kernel_size t_kernel_size t_stride t_padding
       t_dilation : nat) (w : W) : ConvTemporalGraphical :=
  {| kernel_size := kernel_size;
     conv := {| conv_in := in_channels;
                conv_out := out_channels * kernel_size;
                conv_kernel := (t_kernel_size, 1);
                conv_padding := (t_padding, 0);
                conv_stride := (t_stride, 1);
                conv_dilation := (t_dilation, 1);
                conv_w := w |} |}.

Definition BatchNorm2d (n : nat) (w : W) : BatchNorm :=
  {| bn_dim := BN2d; num_features := n; bn_training := true; bn_w := w |}.

(** [nn.BatchNorm1d(n)]: a negative [n] cannot be allocated. *)
Definition BatchNorm1d (n : Z) (w : W) : result BatchNorm :=
  if (n <? 0)%Z then Err RuntimeError
  else Ok {| bn_dim := BN1d; num_features := Z.to_nat n;
             bn_training := true; bn_w := w |}.

(** [GLBGCNBlock.__init__]; [kernel_size] is the Python tuple. *)
Definition GLBGCNBlock_init (in_channels out_channels : nat)
    (kernel_size : list nat) (stride : nat) (dropout : R) (residual : bool)
    (w : block_params) : result GLBGCNBlock :=
  if negb (length kernel_size =? 2) then Err AssertionError
  else
    match kernel_size with
    | k0 :: k1 :: _ =>
        if negb (k0 mod 2 =? 1) then Err AssertionError
        else
          let padding := ((k0 - 1) / 2, 0) in
          Ok {| gcn := ConvTemporalGraphical_init in_channels out_channels k1
                         1 1 0 1 (w_gcn_conv w);
                tcn := [ LBatchNorm (BatchNorm2d out_channels (w_tcn_bn1 w));
                         LReLU true;
                         LConv2d {| conv_in := out_channels;
                                    conv_out := out_channels;
                                    conv_kernel := (k0, 1);
                                    conv_stride := (stride, 1);
                                    conv_padding := padding;
                                    conv_dilation := (1, 1);
                                    conv_w := w_tcn_conv w |};
                         LBatchNorm (BatchNorm2d out_channels (w_tcn_bn2 w));
                         LDropout {| drop_p := dropout; drop_inplace := true;
                                     drop_training := true |} ];
                residual :=
                  if negb residual then Fzero
                  else if (in_channels =? out_channels) && (stride =? 1)
                       then Fidentity
                       else Fsequential
                              [ LConv2d {| conv_in := in_channels;
                                           conv_out := out_channels;
                                           conv_kernel := (1, 1);
                                           conv_stride := (stride, 1);
                                           conv_padding := (0, 0);
                                           conv_dilation := (1, 1);
                                           conv_w := w_res_conv w |};
                                LBatchNorm
                                  (BatchNorm2d out_channels (w_res_bn w)) ];
                relu_layer := LReLU true |}
    | _ => Err IndexError
    end.

(** The arguments of [GLBGCN.__init__]: [cfg_A] is the array [Graph(..).A]
    built from [graph_cfg], [cfg_dropout] the only keyword the blocks take
    from [**kwargs]. *)
Record config : Type := {
  cfg_in_channels : nat;
  cfg_A : value;
  cfg_edge_importance_weighting : bool;
  cfg_data_bn : bool;
  cfg_pretrained : pyobj;
  cfg_reduction : string;
  cfg_dropout : option R;
  cfg_params : net_params
}.

Definition ones (s : shape) : value :=
  {| vshape := s; vdata := replicate (numel s) (rofZ 1) |}.

Definition mk_linear (i o : nat) (w : W) : Linear :=
  {| in_features := i; out_features := o; lin_w := w |}.

(** [nn.BatchNorm1d(c * (A.size(1)-1)) if data_bn else identity]. *)
Definition data_bn_init (flag : bool) (c : nat) (a : value) (w : W)
  : result (option BatchNorm) :=
  if flag then
    match vshape a !! 1 with
    | None => Err IndexError
    | Some va =>
        result_map Some (BatchNorm1d (Z.of_nat c * (Z.of_nat va - 1)) w)
    end
  else Ok None.

(** [GLBGCN.__init__]. *)
Definition GLBGCN_init (cfg : config) : result GLBGCN :=
  let a := cfg_A cfg in
  let in_channels := cfg_in_channels cfg in
  let p := cfg_params cfg in
  let drop := default (rofZ 0) (cfg_dropout cfg) in
  if negb (String.eqb (cfg_reduction cfg) "avg"
           || String.eqb (cfg_reduction cfg) "max")
  then Err AssertionError
  else
    match vshape a !! 0 with
    | None => Err IndexError
    | Some spatial_kernel_size =>
        let kernel_size := [9; spatial_kernel_size] in
        (bn <- data_bn_init (cfg_data_bn cfg) in_channels a (w_data_bn p) ;;
         bnf <- data_bn_init (cfg_data_bn cfg) 32 a (w_data_bn_feature p) ;;
         b0 <- GLBGCNBlock_init in_channels 64 kernel_size 1 (rofZ 0) false
                 (w_block p 0) ;;
         b1 <- GLBGCNBlock_init 64 64 kernel_size 1 drop true (w_block p 1) ;;
         b2 <- GLBGCNBlock_init 64 64 kernel_size 1 drop true (w_block p 2) ;;
         b3 <- GLBGCNBlock_init 64 64 kernel_size 1 drop true (w_block p 3) ;;
         b4 <- GLBGCNBlock_init 64 128 kernel_size 2 drop true (w_block p 4) ;;
         b5 <- GLBGCNBlock_init 128 128 kernel_size 1 drop true (w_block p 5) ;;
         b6 <- GLBGCNBlock_init 128 128 kernel_size 1 drop true (w_block p 6) ;;
         b7 <- GLBGCNBlock_init 128 256 kernel_size 2 drop true (w_block p 7) ;;
         b8 <- GLBGCNBlock_init 256 256 kernel_size 1 drop true (w_block p 8) ;;
         b9 <- GLBGCNBlock_init 256 256 kernel_size 1 drop true (w_block p 9) ;;
         let blocks := [b0; b1; b2; b3; b4; b5; b6; b7; b8; b9] in
         Ok {| A := a;
               in_channel := in_channels;
               reduction := cfg_reduction cfg;
               data_bn := bn;
               data_bn_feature := bnf;
               st_gcn_networks := blocks;
               feature_transform :=
                 [ mk_linear 32 in_channels (w_transform p 0);
                   mk_linear 64 64 (w_transform p 1);
                   mk_linear 64 64 (w_transform p 2);
                   mk_linear 64 64 (w_transform p 3);
                   mk_linear 64 64 (w_transform p 4);
                   mk_linear 128 128 (w_transform p 5);
                   mk_linear 128 128 (w_transform p 6);
                   mk_linear 128 128 (w_transform p 7);
                   mk_linear 256 256 (w_transform p 8);
                   mk_linear 256 256 (w_transform p 9) ];
               feature_residue :=
                 [ mk_linear 32 in_channels (w_residue p 0);
                   mk_linear 32 64 (w_residue p 1);
                   mk_linear 32 64 (w_residue p 2);
                   mk_linear 32 64 (w_residue p 3) ];
               edge_importance :=
                 if cfg_edge_importance_weighting cfg
                 then map (fun _ => ImpParam (ones (vshape a))) blocks
                 else map (fun _ => ImpInt 1) blocks;
               edge_is_parameter_list := cfg_edge_importance_weighting cfg;
               pretrained := cfg_pretrained cfg |})%res
    end.

(** ** The forward passes, over any [Torch] *)

Section Program.

Context {M : Type -> Type} {T : Type} {TT : Torch M T}.

(** [t.size(d)]. *)
Definition size_at (t : T) (d : nat) : M nat :=
  match size t !! d with
  | Some k => ret k
  | None => raise IndexError
  end.

(** What a residual branch returns: a tensor, or the Python integer that
    [zero] returns. *)
Inductive pyres : Type :=
| ResTensor (t : T)
| ResInt (z : Z).

Definition layer_forward (l : layer) (x : T) : M T :=
  match l with
  | LConv2d c => conv2d c x
  | LBatchNorm b => batch_norm b x
  | LReLU inplace => relu inplace x
  | LDropout d => dropout d x
  end.

(** [nn.Sequential.forward]. *)
Fixpoint sequential_forward (ls : list layer) (x : T) : M T :=
  match ls with
  | [] => ret x
  | l :: ls' => y <- layer_forward l x ;; sequential_forward ls' y
  end.

(** [self.residual(x)]. *)
Definition residual_forward (r : residual_fn) (x : T) : M pyres :=
  match r with
  | Fzero => ret (ResInt 0)
  | Fidentity => ret (ResTensor x)
  | Fsequential ls => y <- sequential_forward ls x ;; ret (ResTensor y)
  end.

(** [y + res] for what [self.residual] returned. *)
Definition py_add (y : T) (res : pyres) : M T :=
  match res with
  | ResTensor r => add y r
  | ResInt z => add_int y z
  end.

(** [ConvTemporalGraphical.forward], lines 159-165: what follows the
    assertion. *)
Definition gcn_contract (g : ConvTemporalGraphical) (x adj_mat : T)
  : M (T * T) :=
  x <- conv2d (conv g) x ;;
  match size x with
  | [n; kc; t; v] =>
      if kernel_size g =? 0 then raise ZeroDivisionError
      else
        x <- view [n; kernel_size g; kc / kernel_size g; t; v] x ;;
        x <- einsum_nkctv_kvw_nctw x adj_mat ;;
        x <- contiguous x ;;
        ret (x, adj_mat)
  | _ => raise ValueError
  end.

(** [ConvTemporalGraphical.forward]. *)
Definition gcn_forward (g : ConvTemporalGraphical) (x adj_mat : T)
  : M (T * T) :=
  k <- size_at adj_mat 0 ;;
  if negb (k =? kernel_size g) then raise AssertionError
  else gcn_contract g x adj_mat.

(** [GLBGCNBlock.forward]. *)
Definition block_forward (b : GLBGCNBlock) (x adj_mat : T) : M (T * T) :=
  res <- residual_forward (residual b) x ;;
  xa <- gcn_forward (gcn b) x adj_mat ;;
  x <- sequential_forward (tcn b) (fst xa) ;;
  x <- py_add x res ;;
  x <- layer_forward (relu_layer b) x ;;
  ret (x, snd xa).


(** [self.data_bn(x)] where the attribute is a layer or [identity]. *)
Definition maybe_batch_norm (b : option BatchNorm) (x : T) : M T :=
  match b with
  | Some bn => batch_norm bn x
  | None => ret x
  end.

(** Lines 298-305 and 317-324: [float], reshape to [(N*M, V*C, T)],
    normalise, reshape back to [(N*M, C, T, V)]. *)
Definition normalize (b : option BatchNorm) (x : T) : M T :=
  x <- to_float x ;;
  match size x with
  | [n; c; t; v; m] =>
      x <- permute [0; 4; 3; 1; 2] x ;;
      x <- contiguous x ;;
      x <- view [n * m; v * c; t] x ;;
      x <- maybe_batch_norm b x ;;
      x <- view [n; m; v; c; t] x ;;
      x <- permute [0; 1; 3; 4; 2] x ;;
      x <- contiguous x ;;
      view [n * m; c; t; v] x
  | _ => raise ValueError
  end.

(** Lines 307-310: the reduction over the node axis. *)
Definition reduce_nodes (m : GLBGCN) (x_feature : T) : M T :=
  if String.eqb (reduction m) "avg"
  then mean_keepdim 3 x_feature
  else amax_keepdim 3 x_feature.

(** The variables the loop of [forward] carries from stage to stage. *)
Record loop_state : Type := {
  ls_i : nat;
  ls_x : T;
  ls_x_pos : T;
  ls_x_feature : T
}.

(** Lines 329-331: the stage's transform of the feature stream. *)
Definition transform_feature (fc : Linear) (x_feature : T) : M T :=
  x_feature <- permute [0; 2; 3; 1] x_feature ;;
  x_feature <- linear fc x_feature ;;
  permute [0; 3; 1; 2] x_feature.

(** Lines 333-335: the residue projection of the cached feature, added
    in place. *)
Definition add_residue (r : Linear) (x_feature_clone x_feature : T) : M T :=
  x_feature_res <- linear r x_feature_clone ;;
  x_feature_res <- permute [0; 3; 1; 2] x_feature_res ;;
  iadd x_feature x_feature_res.

(** Lines 329-336; returns the feature stream and the counter [i]. *)
Definition fuse_feature (m : GLBGCN) (x_feature_clone : T) (i : nat)
    (fc : Linear) (x_feature : T) : M (T * nat) :=
  x_feature <- transform_feature fc x_feature ;;
  if i <? length (feature_residue m) then
    match feature_residue m !! i with
    | Some r =>
        x_feature <- add_residue r x_feature_clone x_feature ;;
        ret (x_feature, i + 1)
    | None => raise IndexError
    end
  else ret (x_feature, i).

(** Lines 337-340. *)
Definition graph_step (m : GLBGCN) (gcn : GLBGCNBlock) (imp : importance)
    (x_pos x_feature : T) : M (T * T * T) :=
  x <- cat 3 x_pos x_feature ;;
  adj <- mul_importance (A m) imp ;;
  xa <- block_forward gcn x adj ;;
  let x := fst xa in
  match vshape (A m) !! 1 with
  | None => raise IndexError
  | Some va =>
      x_pos <- slice 4 3 (Some 0%Z) (Some (Z.of_nat va - 1)%Z) x ;;
      x_feature <- select_last 3 x ;;
      x_feature <- unsqueeze 3 x_feature ;;
      ret (x, x_pos, x_feature)
  end.

(** One iteration of the loop of [forward]. *)
Definition stage (m : GLBGCN) (x_feature_clone : T)
    (g : GLBGCNBlock * importance * Linear) (s : loop_state)
  : M loop_state :=
  fi <- fuse_feature m x_feature_clone (ls_i s) (snd g) (ls_x_feature s) ;;
  r <- graph_step m (fst (fst g)) (snd (fst g)) (ls_x_pos s) (fst fi) ;;
  ret {| ls_i := snd fi;
         ls_x := fst (fst r);
         ls_x_pos := snd (fst r);
         ls_x_feature := snd r |}.

Fixpoint run_stages (m : GLBGCN) (x_feature_clone : T)
    (stages : list (GLBGCNBlock * importance * Linear)) (s : loop_state)
  : M loop_state :=
  match stages with
  | [] => ret s
  | g :: rest =>
      s' <- stage m x_feature_clone g s ;;
      run_stages m x_feature_clone rest s'
  end.

(** [zip(self.st_gcn_networks, self.edge_importance,
        self.feature_transform)]. *)
Definition stages_of (m : GLBGCN)
  : list (GLBGCNBlock * importance * Linear) :=
  zip (zip (st_gcn_networks m) (edge_importance m)) (feature_transform m).

(** Lines 295-324: everything before the loop; returns the cached clone
    and the state the loop starts from. *)
Definition prepare (m : GLBGCN) (x : T) : M (T * loop_state) :=
  x_pos <- slice 5 1 (Some 0%Z) (Some (Z.of_nat (in_channel m))) x ;;
  x_feature <- slice 5 1 (Some (Z.of_nat (in_channel m))) None x ;;
  x_feature <- normalize (data_bn_feature m) x_feature ;;
  x_feature <- reduce_nodes m x_feature ;;
  x_feature_clone <- permute [0; 2; 3; 1] x_feature ;;
  x_pos <- normalize (data_bn m) x_pos ;;
  ret (x_feature_clone,
       {| ls_i := 0; ls_x := x; ls_x_pos := x_pos;
          ls_x_feature := x_feature |}).

(** [GLBGCN.forward]. *)
Definition forward (m : GLBGCN) (x : T) : M T :=
  p <- prepare m x ;;
  s <- run_stages m (fst p) (stages_of m) (snd p) ;;
  ret (ls_x s).

End Program.

(** ** Reading over shapes *)

#[export] Instance ShapeTorch : Torch result shape := {|
  ret := fun A a => Ok a;
  bind := fun A B => @result_bind A B;
  raise := fun A e => Err e;
  size := fun s => s;
  to_float := fun s => Ok s;
  slice := sh_slice;
  select_last := sh_select_last;
  unsqueeze := sh_unsqueeze;
  permute := sh_permute;
  contiguous := fun s => Ok s;
  view := sh_view;
  mean_keepdim := sh_reduce_keepdim false;
  amax_keepdim := sh_reduce_keepdim true;
  cat := sh_cat;
  add := sh_broadcast;
  add_int := fun s _ => Ok s;
  iadd := sh_iadd;
  mul_importance := sh_mul_importance;
  einsum_nkctv_kvw_nctw := sh_einsum;
  batch_norm := sh_batch_norm;
  linear := sh_linear;
  conv2d := sh_conv2d;
  relu := fun _ s => Ok s;
  dropout := fun _ s => Ok s
|}.

(** [GLBGCN.forward] on the shape of its input. *)
Definition forward_shape (m : GLBGCN) (s : shape) : result shape :=
  forward (TT := ShapeTorch) m s.

(** ** [nn.Module.train(mode)]: the mode flag of every layer *)

Definition layer_train (mode : bool) (l : layer) : layer :=
  match l with
  | LBatchNorm b =>
      LBatchNorm {| bn_dim := bn_dim b; num_features := num_features b;
                    bn_training := mode; bn_w := bn_w b |}
  | LDropout d =>
      LDropout {| drop_p := drop_p d; drop_inplace := drop_inplace d;
                  drop_training := mode |}
  | _ => l
  end.

Definition bn_train (mode : bool) (b : BatchNorm) : BatchNorm :=
  {| bn_dim := bn_dim b; num_features := num_features b;
     bn_training := mode; bn_w := bn_w b |}.

Definition residual_train (mode : bool) (r : residual_fn) : residual_fn :=
  match r with
  | Fsequential ls => Fsequential (map (layer_train mode) ls)
  | _ => r
  end.

Definition block_train (mode : bool) (b : GLBGCNBlock) : GLBGCNBlock :=
  {| gcn := gcn b;
     tcn := map (layer_train mode) (tcn b);
     residual := residual_train mode (residual b);
     relu_layer := layer_train mode (relu_layer b) |}.

Definition GLBGCN_train (mode : bool) (m : GLBGCN) : GLBGCN :=
  {| A := A m;
     in_channel := in_channel m;
     reduction := reduction m;
     data_bn := option_map (bn_train mode) (data_bn m);
     data_bn_feature := option_map (bn_train mode) (data_bn_feature m);
     st_gcn_networks := map (block_train mode) (st_gcn_networks m);
     feature_transform := feature_transform m;
     feature_residue := feature_residue m;
     edge_importance := edge_importance m;
     edge_is_parameter_list := edge_is_parameter_list m;
     pretrained := pretrained m |}.

(** ** Reading over a store of storages *)

(** Element arithmetic and the numeric kernels of the layers.  A kernel
    gives the element of the result at one index, from the layer and the
    contents of its input. *)
Variable radd rmul : R -> R -> R.
Variable relu_k : R -> R.
Variable mean_k amax_k : list R -> R.
Variable bn_k : BatchNorm -> value -> list nat -> R.
Variable linear_k : Linear -> value -> list nat -> R.
Variable conv_k : Conv2d -> value -> list nat -> R.
Variable dropout_k : Dropout -> value -> list nat -> R.

Definition rzero : R := rofZ 0.

(** A tensor is a strided view of one storage. *)
Record tensor : Type := {
  loc : nat;
  offset : nat;
  sizes : shape;
  strides : list nat
}.

Abbreviation store := (list (list R)).

Definition heapM (X : Type) : Type := store -> result (X * store).

Definition heap_ret {X} (a : X) : heapM X := fun st => Ok (a, st).

Definition heap_bind {X Y} (c : heapM X) (k : X -> heapM Y) : heapM Y :=
  fun st =>
    match c st with
    | Ok (a, st') => k a st'
    | Err e => Err e
    end.

Definition heap_raise {X} (e : error) : heapM X := fun _ => Err e.

Definition lift {X} (r : result X) : heapM X :=
  fun st => match r with Ok a => Ok (a, st) | Err e => Err e end.

(** Row-major indexing. *)
Fixpoint unravel (s : shape) (i : nat) : list nat :=
  match s with
  | [] => []
  | _ :: s' => i / numel s' :: unravel s' (i mod numel s')
  end.

Definition indices (s : shape) : list (list nat) :=
  map (unravel s) (seq 0 (numel s)).

Fixpoint dot (idx st : list nat) : nat :=
  match idx, st with
  | i :: idx', k :: st' => i * k + dot idx' st'
  | _, _ => 0
  end.

Fixpoint contiguous_strides (s : shape) : list nat :=
  match s with
  | [] => []
  | _ :: s' => numel s' :: contiguous_strides s'
  end.

Definition address (t : tensor) (idx : list nat) : nat :=
  offset t + dot idx (strides t).

Definition storage (st : store) (l : nat) : list R := default [] (st !! l).

(** The element of [t] at [idx]. *)
Definition tget (st : store) (t : tensor) (idx : list nat) : R :=
  nth (address t idx) (storage st (loc t)) rzero.

(** The contents of [t], row-major. *)
Definition tread (st : store) (t : tensor) : value :=
  {| vshape := sizes t; vdata := map (tget st t) (indices (sizes t)) |}.

Definition vget (v : value) (idx : list nat) : R :=
  nth (dot idx (contiguous_strides (vshape v))) (vdata v) rzero.

(** A new storage holding the tensor [f] of shape [s]. *)
Definition alloc (s : shape) (f : list nat -> R) : heapM tensor :=
  fun st =>
    Ok ({| loc := length st; offset := 0; sizes := s;
           strides := contiguous_strides s |},
        st ++ [map f (indices s)]).

Definition write_through (t : tensor) (f : list nat -> R) (d : list R)
  : list R :=
  fold_left (fun d idx => <[address t idx := f idx]> d) (indices (sizes t)) d.

(** An in-place operation: every element of the view [t] is rewritten,
    in the storage [t] views; the result is [t] itself. *)
Definition update (t : tensor) (f : list nat -> R) : heapM tensor :=
  fun st =>
    match st !! loc t with
    | None => Err RuntimeError
    | Some d => Ok (t, <[loc t := write_through t f d]> st)
    end.

Fixpoint strides_agree (s st expected : list nat) : bool :=
  match s, st, expected with
  | [], [], [] => true
  | d :: s', k :: st', e :: ex' =>
      ((d =? 1) || (k =? e)) && strides_agree s' st' ex'
  | _, _, _ => false
  end.

Definition is_contiguous (t : tensor) : bool :=
  (numel (sizes t) =? 0)
  || strides_agree (sizes t) (strides t) (contiguous_strides (sizes t)).

(** The index of an operand that is broadcast to the index [idx] of the
    result. *)
Definition bidx (s : shape) (idx : list nat) : list nat :=
  zip_with (fun d i => if d =? 1 then 0 else i) s
    (drop (length idx - length s) idx).

Definition rsum (n : nat) (f : nat -> R) : R :=
  fold_right (fun k acc => radd (f k) acc) rzero (seq 0 n).

Definition h_slice (nidx dim : nat) (start stop : option Z) (t : tensor)
  : heapM tensor :=
  heap_bind (lift (sh_slice nidx dim start stop (sizes t)))
    (fun s' =>
       let a := fst (slice_bounds (nth dim (sizes t) 0) start stop) in
       heap_ret {| loc := loc t;
                   offset := offset t + a * nth dim (strides t) 0;
                   sizes := s'; strides := strides t |}).

Definition h_select_last (dim : nat) (t : tensor) : heapM tensor :=
  heap_bind (lift (sh_select_last dim (sizes t)))
    (fun s' =>
       heap_ret {| loc := loc t;
                   offset := offset t
                             + (nth dim (sizes t) 0 - 1) * nth dim (strides t) 0;
                   sizes := s'; strides := delete dim (strides t) |}).

Definition h_unsqueeze (dim : nat) (t : tensor) : heapM tensor :=
  heap_bind (lift (sh_unsqueeze dim (sizes t)))
    (fun s' =>
       let k := if length (sizes t) <=? dim then 1
                else nth dim (sizes t) 0 * nth dim (strides t) 0 in
       heap_ret {| loc := loc t; offset := offset t; sizes := s';
                   strides := take dim (strides t) ++ k :: drop dim (strides t) |}).

Definition h_permute (dims : list nat) (t : tensor) : heapM tensor :=
  heap_bind (lift (sh_permute dims (sizes t)))
    (fun s' =>
       heap_ret {| loc := loc t; offset := offset t; sizes := s';
                   strides := map (fun d => nth d (strides t) 0) dims |}).

(** [t.contiguous()]: [t] itself when it is contiguous, a copy otherwise. *)
Definition h_contiguous (t : tensor) : heapM tensor :=
  if is_contiguous t then heap_ret t
  else fun st => alloc (sizes t) (tget st t) st.

(** [t.view(new)], for the tensors the network views: contiguous ones. *)
Definition h_view (new : shape) (t : tensor) : heapM tensor :=
  heap_bind (lift (sh_view new (sizes t)))
    (fun s' =>
       if is_contiguous t
       then heap_ret {| loc := loc t; offset := offset t; sizes := s';
                        strides := contiguous_strides s' |}
       else heap_raise RuntimeError).

Definition h_reduce (k : list R -> R) (nonempty : bool) (dim : nat)
    (t : tensor) : heapM tensor :=
  heap_bind (lift (sh_reduce_keepdim nonempty dim (sizes t)))
    (fun s' st =>
       alloc s'
         (fun idx =>
            k (map (fun j => tget st t (<[dim := j]> idx))
                 (seq 0 (nth dim (sizes t) 0)))) st).

Definition h_cat (dim : nat) (a b : tensor) : heapM tensor :=
  heap_bind (lift (sh_cat dim (sizes a) (sizes b)))
    (fun s' st =>
       alloc s'
         (fun idx =>
            let j := nth dim idx 0 in
            if j <? nth dim (sizes a) 0 then tget st a idx
            else tget st b (<[dim := j - nth dim (sizes a) 0]> idx)) st).

Definition h_add (a b : tensor) : heapM tensor :=
  heap_bind (lift (sh_broadcast (sizes a) (sizes b)))
    (fun s' st =>
       alloc s'
         (fun idx =>
            radd (tget st a (bidx (sizes a) idx))
                 (tget st b (bidx (sizes b) idx))) st).

Definition h_add_int (a : tensor) (z : Z) : heapM tensor :=
  fun st => alloc (sizes a) (fun idx => radd (tget st a idx) (rofZ z)) st.

(** [a += b]: written into the storage of [a]. *)
Definition h_iadd (a b : tensor) : heapM tensor :=
  heap_bind (lift (sh_iadd (sizes a) (sizes b)))
    (fun _ st =>
       update a
         (fun idx => radd (tget st a idx) (tget st b (bidx (sizes b) idx)))
         st).

(** [self.A * importance]: a new tensor. *)
Definition mul_importance_at (a : value) (imp : importance) (idx : list nat)
  : R :=
  match imp with
  | ImpParam p =>
      rmul (vget a (bidx (vshape a) idx)) (vget p (bidx (vshape p) idx))
  | ImpInt z => rmul (vget a idx) (rofZ z)
  end.

Definition h_mul_importance (a : value) (imp : importance) : heapM tensor :=
  heap_bind (lift (sh_mul_importance a imp))
    (fun s' => alloc s' (mul_importance_at a imp)).

(** The element [n, c, t, w] of ['nkctv,kvw->nctw']. *)
Definition einsum_at (st : store) (x a : tensor) (idx : list nat) : R :=
  match idx, sizes x, sizes a with
  | [n; c; t; w], [_; k; _; _; v], [k'; v'; _] =>
      rsum (bsize k k')
        (fun kk =>
           rsum (bsize v v')
             (fun vv =>
                rmul (tget st x (bidx (sizes x) [n; kk; c; t; vv]))
                     (tget st a (bidx (sizes a) [kk; vv; w]))))
  | _, _, _ => rzero
  end.

Definition h_einsum (x a : tensor) : heapM tensor :=
  heap_bind (lift (sh_einsum (sizes x) (sizes a)))
    (fun s' st => alloc s' (einsum_at st x a) st).

Definition h_batch_norm (b : BatchNorm) (t : tensor) : heapM tensor :=
  heap_bind (lift (sh_batch_norm b (sizes t)))
    (fun s' st => alloc s' (bn_k b (tread st t)) st).

Definition h_linear (l : Linear) (t : tensor) : heapM tensor :=
  heap_bind (lift (sh_linear l (sizes t)))
    (fun s' st => alloc s' (linear_k l (tread st t)) st).

Definition h_conv2d (c : Conv2d) (t : tensor) : heapM tensor :=
  heap_bind (lift (sh_conv2d c (sizes t)))
    (fun s' st => alloc s' (conv_k c (tread st t)) st).

Definition h_relu (inplace : bool) (t : tensor) : heapM tensor :=
  fun st =>
    let f := fun idx => relu_k (tget st t idx) in
    if inplace then update t f st else alloc (sizes t) f st.

Definition h_dropout (d : Dropout) (t : tensor) : heapM tensor :=
  fun st =>
    let f := dropout_k d (tread st t) in
    if drop_inplace d then update t f st else alloc (sizes t) f st.

#[export] Instance HeapTorch : Torch heapM tensor := {|
  ret := fun X a => heap_ret a;
  bind := fun X Y => @heap_bind X Y;
  raise := fun X e => heap_raise e;
  size := sizes;
  to_float := fun t => heap_ret t;
  slice := h_slice;
  select_last := h_select_last;
  unsqueeze := h_unsqueeze;
  permute := h_permute;
  contiguous := h_contiguous;
  view := h_view;
  mean_keepdim := h_reduce mean_k false;
  amax_keepdim := h_reduce amax_k true;
  cat := h_cat;
  add := h_add;
  add_int := h_add_int;
  iadd := h_iadd;
  mul_importance := h_mul_importance;
  einsum_nkctv_kvw_nctw := h_einsum;
  batch_norm := h_batch_norm;
  linear := h_linear;
  conv2d := h_conv2d;
  relu := h_relu;
  dropout := h_dropout
|}.

(** [GLBGCN.forward] on a tensor of the store. *)
Definition forward_heap (m : GLBGCN) (x : tensor) : heapM tensor :=
  forward (TT := HeapTorch) m x.

(** ** [init_weights] *)

(** A module as [isinstance] sees it in [init_weights]. *)
Inductive module_kind : Type :=
| MConv2d (c : Conv2d)
| MLinear (l : Linear)
| MBatchNorm (b : BatchNorm)
| MOther.

Definition layer_modules (l : layer) : list module_kind :=
  match l with
  | LConv2d c => [MConv2d c]
  | LBatchNorm b => [MBatchNorm b]
  | LReLU _ => [MOther]
  | LDropout _ => [MOther]
  end.

(** [nn.Sequential]: the container, then its children. *)
Definition sequential_modules (ls : list layer) : list module_kind :=
  MOther :: flat_map layer_modules ls.

Definition residual_modules (r : residual_fn) : list module_kind :=
  match r with
  | Fsequential ls => sequential_modules ls
  | _ => []
  end.

Definition gcn_modules (g : ConvTemporalGraphical) : list module_kind :=
  [MOther; MConv2d (conv g)].

Definition block_modules (b : GLBGCNBlock) : list module_kind :=
  MOther :: gcn_modules (gcn b) ++ sequential_modules (tcn b)
    ++ residual_modules (residual b) ++ layer_modules (relu_layer b).

Definition bn_modules (b : option BatchNorm) : list module_kind :=
  match b with
  | Some bn => [MBatchNorm bn]
  | None => []
  end.

(** [self.modules()]: the backbone, then its sub-modules in the order
    they were registered. *)
Definition GLBGCN_modules (m : GLBGCN) : list module_kind :=
  MOther :: bn_modules (data_bn m) ++ bn_modules (data_bn_feature m)
    ++ (MOther :: flat_map block_modules (st_gcn_networks m))
    ++ (MOther :: map MLinear (feature_transform m))
    ++ (MOther :: map MLinear (feature_residue m))
    ++ (if edge_is_parameter_list m then [MOther] else []).

(** Calls to the collaborators: the logger, [load_checkpoint] and the
    initialisers of mmcv. *)
Inductive call : Type :=
| LoggerInfo (msg : string)
| LoadCheckpoint (filename : string) (strict : bool)
| KaimingInit (c : Conv2d)
| NormalInit (l : Linear)
| ConstantInit (b : BatchNorm) (val : Z).

Definition init_module (k : module_kind) : list call :=
  match k with
  | MConv2d c => [KaimingInit c]
  | MLinear l => [NormalInit l]
  | MBatchNorm b => [ConstantInit b 1]
  | MOther => []
  end.

Definition is_none (p : pyobj) : bool :=
  match p with PyNone => true | _ => false end.

(** [GLBGCN.init_weights]: the calls it makes, in order, or the
    exception it raises. *)
Definition init_weights (m : GLBGCN) : result (list call) :=
  match pretrained m with
  | PyStr s =>
      Ok [ LoggerInfo (String.append "load model from: " s);
           LoadCheckpoint s false ]
  | p =>
      if is_none p
      then Ok (flat_map init_module (GLBGCN_modules m))
      else Err TypeError
  end.

(** * Vocabulary of the statements *)

(** ** Shapes along the pipeline *)


(** The values of [reduction] that the constructor accepts. *)
Definition valid_reduction (s : string) : Prop := s = "avg" \/ s = "max".




(** The temporal convolutions of a block: the [nn.Conv2d] of its [tcn]. *)
Definition temporal_convs (b : GLBGCNBlock) : list Conv2d :=
  flat_map (fun l => match l with LConv2d c => [c] | _ => [] end) (tcn b).

(** ** Stores and views *)

(** A multi-index within a shape. *)
Definition in_range (idx : list nat) (s : shape) : Prop := Forall2 lt idx s.

(** A tensor whose storage is in the store. *)
Definition valid (st : store) (t : tensor) : Prop := loc t < length st.

(** [st'] extends [st] and has the same first [n] storages. *)
Definition keeps (n : nat) (st st' : store) : Prop :=
  length st <= length st' /\ forall l, l < n -> st' !! l = st !! l.

(** A tensor whose storage was allocated at or after [n]. *)
Definition owned (n : nat) (t : tensor) : Prop := n <= loc t.

(** Started in a store of at least [n] storages, [c] leaves the first
    [n] storages as they are, and its result satisfies [Q]. *)
Definition safe {X} (n : nat) (c : heapM X) (Q : X -> Prop) : Prop :=
  forall st x st',
    n <= length st -> c st = Ok (x, st') -> keeps n st st' /\ Q x.

(** Views share the storage of their argument. *)
Definition same_loc (t t' : tensor) : Prop := loc t' = loc t.

(** A layer that returns a new tensor. *)
Definition allocating (l : layer) : bool :=
  match l with
  | LConv2d _ => true
  | LBatchNorm _ => true
  | LReLU inplace => negb inplace
  | LDropout d => negb (drop_inplace d)
  end.

(** A residual branch that does not start with an in-place layer. *)
Definition residual_ok (r : residual_fn) : Prop :=
  match r with
  | Fsequential (l :: _) => allocating l = true
  | _ => True
  end.

(** ** Variations of a configuration *)


(** The configuration [cfg] with [edge_importance_weighting] set. *)
Definition with_edge_importance_weighting (flag : bool) (cfg : config)
  : config :=
  {| cfg_in_channels := cfg_in_channels cfg;
     cfg_A := cfg_A cfg;
     cfg_edge_importance_weighting := flag;
     cfg_data_bn := cfg_data_bn cfg;
     cfg_pretrained := cfg_pretrained cfg;
     cfg_reduction := cfg_reduction cfg;
     cfg_dropout := cfg_dropout cfg;
     cfg_params := cfg_params cfg |}.

(** ** Small instances *)

(** The same weights for every layer. *)
Definition uniform_params (w : W) : net_params :=
  {| w_data_bn := w;
     w_data_bn_feature := w;
     w_block := fun _ => Build_block_params w w w w w w;
     w_transform := fun _ => w;
     w_residue := fun _ => w |}.

(** A numeric kernel that returns [r] everywhere. *)
Definition const_kernel {X Y : Type} (r : R) : X -> Y -> list nat -> R :=
  fun _ _ _ => r.

(** A graph of [va] nodes with one adjacency matrix of ones, reduction
    ['avg'], no checkpoint and the default dropout. *)
Definition ones_cfg (in_channels va : nat) (weighting bn : bool) (w : W)
  : config :=
  {| cfg_in_channels := in_channels;
     cfg_A := Value [1; va; va] (replicate (va * va) (rofZ 1));
     cfg_edge_importance_weighting := weighting;
     cfg_data_bn := bn;
     cfg_pretrained := PyNone;
     cfg_reduction := "avg";
     cfg_dropout := None;
     cfg_params := uniform_params w |}.

(** A contiguous tensor over the storage at [l]. *)
Definition dense (l : nat) (s : shape) : tensor :=
  {| loc := l; offset := 0; sizes := s; strides := contiguous_strides s |}.

(** ** The store reading against the shape reading *)

(** In a store of [k] storages, the tensor [t] has the shape [s]. *)
Definition fits (k : nat) (t : tensor) (s : shape) : Prop :=
  sizes t = s /\ loc t < k.

Definition fits_contiguous (k : nat) (t : tensor) (s : shape) : Prop :=
  fits k t s /\ is_contiguous t = true.

Definition fits_res (k : nat) (r : pyres (T := tensor))
    (r' : pyres (T := shape)) : Prop :=
  match r, r' with
  | ResTensor t, ResTensor s => fits k t s
  | ResInt z, ResInt z' => z = z'
  | _, _ => False
  end.

Definition fits_state (k : nat) (s : loop_state (T := tensor))
    (s' : loop_state (T := shape)) : Prop :=
  ls_i s = ls_i s' /\ fits k (ls_x s) (ls_x s') /\
  fits k (ls_x_pos s) (ls_x_pos s') /\
  fits k (ls_x_feature s) (ls_x_feature s').

(** Started in a store of at least [n] storages, the computation [c]
    raises the exception that [r] raises, or returns a result that [post]
    relates to the result of [r], in a store that has not shrunk. *)
Definition refines {X Y} (n : nat) (c : heapM X) (r : result Y)
    (post : nat -> X -> Y -> Prop) : Prop :=
  forall st, n <= length st ->
    match c st with
    | Ok (x, st') =>
        length st <= length st' /\ exists y, r = Ok y /\ post (length st') x y
    | Err e => r = Err e
    end.

(** ** The blocks of the backbone *)

(** The three kinds of residual branch. *)
Inductive branch : Type := ZeroBranch | IdentityBranch | ProjectionBranch.

Definition branch_of (r : residual_fn) : branch :=
  match r with
  | Fzero => ZeroBranch
  | Fidentity => IdentityBranch
  | Fsequential _ => ProjectionBranch
  end.

(** The rates of the [nn.Dropout] layers of a block. *)
Definition dropout_rates (b : GLBGCNBlock) : list R :=
  flat_map (fun l => match l with LDropout d => [drop_p d] | _ => [] end)
    (tcn b).

(** Channels that enter and leave a block: the input channels of its
    graph convolution, the output channels of its temporal convolutions. *)
Definition block_channels (b : GLBGCNBlock) : nat * list nat :=
  (conv_in (conv (gcn b)), map conv_out (temporal_convs b)).

(** * Properties *)

(** ** The result monad *)

Lemma result_bind_ok {X Y} (c : result X) (k : X -> result Y) (b : Y) :
  result_bind c k = Ok b -> exists a, c = Ok a /\ k a = Ok b.
Proof. destruct c as [a|e]; simpl; [eauto | discriminate]. Qed.



(** ** Shape rules in the cases the network meets *)

Tactic Notation "shape_step" :=
  cbn [ret bind raise size to_float slice select_last unsqueeze permute
       contiguous view mean_keepdim amax_keepdim cat add add_int iadd
       mul_importance einsum_nkctv_kvw_nctw batch_norm linear conv2d relu
       dropout ShapeTorch result_bind result_map fst snd].

Tactic Notation "shape_step" "in" hyp(H) :=
  cbn [ret bind raise size to_float slice select_last unsqueeze permute
       contiguous view mean_keepdim amax_keepdim cat add add_int iadd
       mul_importance einsum_nkctv_kvw_nctw batch_norm linear conv2d relu
       dropout ShapeTorch result_bind result_map fst snd] in H.






Lemma sh_broadcast_same (s : shape) : sh_broadcast s s = Ok s.
Proof.
  unfold sh_broadcast.
  assert (H : forall r, broadcast_rev r r = Ok r).
  { induction r as [|x r IH]; simpl; [done|]. by rewrite Nat.eqb_refl, IH. }
  by rewrite H; simpl; rewrite rev_involutive.
Qed.














Lemma GLBGCNBlock_init_k9 (cin cout K stride : nat) (drop : R) (res : bool)
    (w : block_params) :
  GLBGCNBlock_init cin cout [9; K] stride drop res w
  = Ok {| gcn := ConvTemporalGraphical_init cin cout K 1 1 0 1 (w_gcn_conv w);
          tcn := [ LBatchNorm (BatchNorm2d cout (w_tcn_bn1 w));
                   LReLU true;
                   LConv2d {| conv_in := cout; conv_out := cout;
                              conv_kernel := (9, 1);
                              conv_stride := (stride, 1);
                              conv_padding := (4, 0);
                              conv_dilation := (1, 1);
                              conv_w := w_tcn_conv w |};
                   LBatchNorm (BatchNorm2d cout (w_tcn_bn2 w));
                   LDropout {| drop_p := drop; drop_inplace := true;
                               drop_training := true |} ];
          residual :=
            if negb res then Fzero
            else if (cin =? cout) && (stride =? 1) then Fidentity
                 else Fsequential
                        [ LConv2d {| conv_in := cin; conv_out := cout;
                                     conv_kernel := (1, 1);
                                     conv_stride := (stride, 1);
                                     conv_padding := (0, 0);
                                     conv_dilation := (1, 1);
                                     conv_w := w_res_conv w |};
                          LBatchNorm (BatchNorm2d cout (w_res_bn w)) ];
          relu_layer := LReLU true |}.
Proof. reflexivity. Qed.















(** ** Construction succeeds on a graph of [v + 1] nodes *)

Lemma data_bn_init_ok (flag : bool) (c : nat) (a : value) (w : W) (K v : nat) :
  vshape a = [K; v + 1; v + 1] ->
  data_bn_init flag c a w
  = Ok (if flag
        then Some {| bn_dim := BN1d; num_features := c * v;
                     bn_training := true; bn_w := w |}
        else None).
Proof.
  intros Ha. unfold data_bn_init. destruct flag; [|done]. rewrite Ha.
  change ([K; v + 1; v + 1] !! 1) with (Some (v + 1)). cbv iota.
  unfold BatchNorm1d.
  replace (Z.of_nat c * (Z.of_nat (v + 1) - 1))%Z with (Z.of_nat (c * v)) by lia.
  destruct (Z.ltb_spec (Z.of_nat (c * v)) 0); [lia|].
  by rewrite Nat2Z.id.
Qed.

Lemma valid_reduction_check (s : string) :
  valid_reduction s -> negb (String.eqb s "avg" || String.eqb s "max") = false.
Proof. by intros [-> | ->]. Qed.


(** What a successful construction built. *)
Lemma GLBGCN_init_inv (cfg : config) (m : GLBGCN) :
  GLBGCN_init cfg = Ok m ->
  let a := cfg_A cfg in
  let c := cfg_in_channels cfg in
  let p := cfg_params cfg in
  let drop := default (rofZ 0) (cfg_dropout cfg) in
  exists K b0 b1 b2 b3 b4 b5 b6 b7 b8 b9,
    valid_reduction (cfg_reduction cfg) /\
    vshape a !! 0 = Some K /\
    data_bn_init (cfg_data_bn cfg) c a (w_data_bn p) = Ok (data_bn m) /\
    data_bn_init (cfg_data_bn cfg) 32 a (w_data_bn_feature p)
      = Ok (data_bn_feature m) /\
    GLBGCNBlock_init c 64 [9; K] 1 (rofZ 0) false (w_block p 0) = Ok b0 /\
    GLBGCNBlock_init 64 64 [9; K] 1 drop true (w_block p 1) = Ok b1 /\
    GLBGCNBlock_init 64 64 [9; K] 1 drop true (w_block p 2) = Ok b2 /\
    GLBGCNBlock_init 64 64 [9; K] 1 drop true (w_block p 3) = Ok b3 /\
    GLBGCNBlock_init 64 128 [9; K] 2 drop true (w_block p 4) = Ok b4 /\
    GLBGCNBlock_init 128 128 [9; K] 1 drop true (w_block p 5) = Ok b5 /\
    GLBGCNBlock_init 128 128 [9; K] 1 drop true (w_block p 6) = Ok b6 /\
    GLBGCNBlock_init 128 256 [9; K] 2 drop true (w_block p 7) = Ok b7 /\
    GLBGCNBlock_init 256 256 [9; K] 1 drop true (w_block p 8) = Ok b8 /\
    GLBGCNBlock_init 256 256 [9; K] 1 drop true (w_block p 9) = Ok b9 /\
    A m = a /\ in_channel m = c /\ reduction m = cfg_reduction cfg /\
    pretrained m = cfg_pretrained cfg /\
    st_gcn_networks m = [b0; b1; b2; b3; b4; b5; b6; b7; b8; b9] /\
    feature_transform m =
      [ mk_linear 32 c (w_transform p 0); mk_linear 64 64 (w_transform p 1);
        mk_linear 64 64 (w_transform p 2); mk_linear 64 64 (w_transform p 3);
        mk_linear 64 64 (w_transform p 4); mk_linear 128 128 (w_transform p 5);
        mk_linear 128 128 (w_transform p 6); mk_linear 128 128 (w_transform p 7);
        mk_linear 256 256 (w_transform p 8); mk_linear 256 256 (w_transform p 9) ] /\
    feature_residue m =
      [ mk_linear 32 c (w_residue p 0); mk_linear 32 64 (w_residue p 1);
        mk_linear 32 64 (w_residue p 2); mk_linear 32 64 (w_residue p 3) ] /\
    edge_importance m =
      replicate 10 (if cfg_edge_importance_weighting cfg
                    then ImpParam (ones (vshape a)) else ImpInt 1) /\
    edge_is_parameter_list m = cfg_edge_importance_weighting cfg.
Proof.
  intros H a c p drop. unfold GLBGCN_init in H. fold a c p drop in H.
  destruct (negb _) eqn:Hred in H; [discriminate|].
  destruct (vshape a !! 0) as [K|] eqn:HK; [|discriminate].
  apply result_bind_ok in H as (bn & Hbn & H).
  apply result_bind_ok in H as (bnf & Hbnf & H).
  apply result_bind_ok in H as (b0 & Hb0 & H).
  apply result_bind_ok in H as (b1 & Hb1 & H).
  apply result_bind_ok in H as (b2 & Hb2 & H).
  apply result_bind_ok in H as (b3 & Hb3 & H).
  apply result_bind_ok in H as (b4 & Hb4 & H).
  apply result_bind_ok in H as (b5 & Hb5 & H).
  apply result_bind_ok in H as (b6 & Hb6 & H).
  apply result_bind_ok in H as (b7 & Hb7 & H).
  apply result_bind_ok in H as (b8 & Hb8 & H).
  apply result_bind_ok in H as (b9 & Hb9 & H).
  injection H as <-.
  exists K, b0, b1, b2, b3, b4, b5, b6, b7, b8, b9. cbn [A in_channel reduction
    pretrained st_gcn_networks feature_transform feature_residue edge_importance
    edge_is_parameter_list data_bn data_bn_feature].
  repeat split; try done.
  - apply negb_false_iff, orb_true_iff in Hred as [E|E];
      apply String.eqb_eq in E; [by left | by right].
  - by destruct (cfg_edge_importance_weighting cfg).
Qed.


(** Construction succeeds for a valid reduction and a graph of [v + 1]
    nodes. *)
Lemma GLBGCN_init_total (cfg : config) (K v : nat) :
  vshape (cfg_A cfg) = [K; v + 1; v + 1] ->
  valid_reduction (cfg_reduction cfg) ->
  exists m, GLBGCN_init cfg = Ok m.
Proof.
  intros Ha Hred. unfold GLBGCN_init.
  rewrite (valid_reduction_check Hred), Ha.
  change ([K; v + 1; v + 1] !! 0) with (Some K). cbv iota.
  rewrite <- Ha, !(data_bn_init_ok _ _ _ Ha). shape_step.
  rewrite !GLBGCNBlock_init_k9. shape_step. eauto.
Qed.

Lemma stages_of_train (mode : bool) (m : GLBGCN) :
  stages_of (GLBGCN_train mode m)
  = zip (zip (map (block_train mode) (st_gcn_networks m)) (edge_importance m))
      (feature_transform m).
Proof. reflexivity. Qed.

Lemma sh_mul_importance_init (a : value) (w : bool) :
  sh_mul_importance a (if w then ImpParam (ones (vshape a)) else ImpInt 1)
  = Ok (vshape a).
Proof. destruct w; simpl; [apply sh_broadcast_same | done]. Qed.


Lemma data_bn_init_training (flag : bool) (c : nat) (a : value) (w : W)
    (b : option BatchNorm) :
  data_bn_init flag c a w = Ok b -> option_map (bn_train true) b = b.
Proof.
  unfold data_bn_init. destruct flag; [|by intros [= <-]].
  destruct (vshape a !! 1); [|done]. unfold BatchNorm1d.
  destruct (_ <? _)%Z; [done|]. by intros [= <-].
Qed.

Lemma block_train_true_init (cin cout K stride : nat) (drop : R) (res : bool)
    (w : block_params) (b : GLBGCNBlock) :
  GLBGCNBlock_init cin cout [9; K] stride drop res w = Ok b ->
  block_train true b = b.
Proof.
  rewrite GLBGCNBlock_init_k9. intros [= <-]. unfold block_train. cbn.
  by destruct res; [destruct (_ && _)|].
Qed.

(** A freshly built backbone is in training mode. *)
Lemma GLBGCN_train_true_init (cfg : config) (m : GLBGCN) :
  GLBGCN_init cfg = Ok m -> GLBGCN_train true m = m.
Proof.
  intros Hm.
  destruct (GLBGCN_init_inv Hm)
    as (K' & b0 & b1 & b2 & b3 & b4 & b5 & b6 & b7 & b8 & b9 & _ & _ & Hbn & Hbnf
        & Hb0 & Hb1 & Hb2 & Hb3 & Hb4 & Hb5 & Hb6 & Hb7 & Hb8 & Hb9
        & _ & _ & _ & _ & Hblocks & _).
  destruct m. unfold GLBGCN_train.
  cbn [st_gcn_networks data_bn data_bn_feature A in_channel reduction
       feature_transform feature_residue edge_importance
       edge_is_parameter_list pretrained] in *. subst.
  rewrite (data_bn_init_training Hbn), (data_bn_init_training Hbnf). cbn [map].
  by rewrite (block_train_true_init Hb0), (block_train_true_init Hb1),
    (block_train_true_init Hb2), (block_train_true_init Hb3),
    (block_train_true_init Hb4), (block_train_true_init Hb5),
    (block_train_true_init Hb6), (block_train_true_init Hb7),
    (block_train_true_init Hb8), (block_train_true_init Hb9).
Qed.



(** ** What a successful run forces on the input *)
















Lemma sh_iadd_inv (a b s' : shape) : sh_iadd a b = Ok s' -> s' = a.
Proof.
  unfold sh_iadd. destruct (sh_broadcast a b); [|done]. simpl.
  destruct (shape_eqb _ _); [|done]. by intros [= <-].
Qed.





(** ** Any other channel count is refused with a size mismatch *)






(** ** Row-major indexing *)

Lemma unravel_in_range (s : shape) (i : nat) :
  i < numel s -> in_range (unravel s i) s.
Proof.
  revert i. induction s as [|d s IH]; intros i Hi; simpl.
  - constructor.
  - simpl in Hi. assert (0 < numel s) by (destruct (numel s); lia).
    constructor.
    + apply Nat.Div0.div_lt_upper_bound. lia.
    + apply IH, Nat.mod_upper_bound. lia.
Qed.

Lemma dot_unravel (s : shape) (i : nat) :
  i < numel s -> dot (unravel s i) (contiguous_strides s) = i.
Proof.
  revert i. induction s as [|d s IH]; intros i Hi; simpl.
  - simpl in Hi. lia.
  - simpl in Hi. assert (0 < numel s) by (destruct (numel s); lia).
    rewrite IH by (apply Nat.mod_upper_bound; lia).
    pose proof (Nat.div_mod_eq i (numel s)). lia.
Qed.

Lemma unravel_dot (s : shape) (idx : list nat) :
  in_range idx s ->
  dot idx (contiguous_strides s) < numel s /\
  unravel s (dot idx (contiguous_strides s)) = idx.
Proof.
  induction 1 as [|i d idx s Hi _ [IH1 IH2]]; simpl.
  - split; [lia | done].
  - assert (0 < numel s) by lia. split; [nia|].
    rewrite Nat.div_add_l by lia. rewrite Nat.div_small by done.
    rewrite Nat.add_0_r. f_equal.
    rewrite Nat.add_comm, Nat.Div0.mod_add, Nat.mod_small by done. done.
Qed.

Lemma bidx_in_range (s : shape) (idx : list nat) :
  in_range idx s -> bidx s idx = idx.
Proof.
  intros H. unfold bidx.
  rewrite (Forall2_length _ _ _ H), Nat.sub_diag, drop_0.
  induction H as [|i d idx s Hi _ IH]; simpl; [done|].
  rewrite IH. destruct (Nat.eqb_spec d 1); [f_equal; lia | done].
Qed.

Lemma nth_map_seq {X} (h : nat -> X) (n k : nat) (d : X) :
  k < n -> nth k (map h (seq 0 n)) d = h k.
Proof.
  intros Hk. rewrite (nth_indep _ d (h 0)) by (by rewrite length_map, length_seq).
  rewrite (map_nth h (seq 0 n) 0 k). by rewrite seq_nth.
Qed.

Lemma nth_indices {X} (f : list nat -> X) (s : shape) (idx : list nat) (d : X) :
  in_range idx s ->
  nth (dot idx (contiguous_strides s)) (map f (indices s)) d = f idx.
Proof.
  intros H. destruct (unravel_dot H) as [Hlt Hun]. unfold indices.
  rewrite map_map, nth_map_seq by done. by rewrite Hun.
Qed.

Lemma elem_of_indices (s : shape) (idx : list nat) :
  idx ∈ indices s -> in_range idx s.
Proof.
  unfold indices. intros H. apply list_elem_of_fmap in H as (i & -> & Hi).
  apply elem_of_seq in Hi. apply unravel_in_range. lia.
Qed.

(** ** Reading the store *)

Lemma keeps_refl (n : nat) (st : store) : keeps n st st.
Proof. by split. Qed.

Lemma keeps_trans (n : nat) (st1 st2 st3 : store) :
  keeps n st1 st2 -> keeps n st2 st3 -> keeps n st1 st3.
Proof.
  intros [H1 H2] [H3 H4]. split; [lia|]. intros l Hl. by rewrite H4, H2.
Qed.

Lemma tget_keeps (n : nat) (st st' : store) (t : tensor) (idx : list nat) :
  keeps n st st' -> loc t < n -> tget st' t idx = tget st t idx.
Proof. intros [_ H] Hl. unfold tget, storage. by rewrite H. Qed.

Lemma tread_keeps (n : nat) (st st' : store) (t : tensor) :
  keeps n st st' -> loc t < n -> tread st' t = tread st t.
Proof.
  intros H Hl. unfold tread. f_equal. apply map_ext. intros idx.
  by apply (tget_keeps _ H).
Qed.

Lemma alloc_keeps (s : shape) (f : list nat -> R) (st st' : store)
    (t : tensor) :
  alloc s f st = Ok (t, st') ->
  keeps (length st) st st' /\ loc t = length st /\ offset t = 0 /\
  sizes t = s /\ strides t = contiguous_strides s /\
  storage st' (loc t) = map f (indices s).
Proof.
  unfold alloc. intros [= <- <-]. cbn [loc offset sizes strides].
  split; [split|].
  - rewrite length_app. lia.
  - intros l Hl. by rewrite lookup_app_l.
  - repeat split. unfold storage. by rewrite list_lookup_middle.
Qed.

(** Reading back a tensor that was just allocated. *)
Lemma tget_alloc (s : shape) (f : list nat -> R) (st st' : store)
    (t : tensor) (idx : list nat) :
  alloc s f st = Ok (t, st') -> in_range idx s -> tget st' t idx = f idx.
Proof.
  intros H Hidx.
  destruct (alloc_keeps H) as (_ & _ & Ho & _ & Hs & Hst).
  unfold tget, address. rewrite Hst, Ho, Hs. simpl. by apply nth_indices.
Qed.

(** ** Which storages a computation may write *)

Tactic Notation "heap_step" :=
  cbn [ret bind raise size to_float slice select_last unsqueeze permute
       contiguous view mean_keepdim amax_keepdim cat add add_int iadd
       mul_importance einsum_nkctv_kvw_nctw batch_norm linear conv2d relu
       dropout HeapTorch].

Tactic Notation "heap_step" "in" hyp(H) :=
  cbn [ret bind raise size to_float slice select_last unsqueeze permute
       contiguous view mean_keepdim amax_keepdim cat add add_int iadd
       mul_importance einsum_nkctv_kvw_nctw batch_norm linear conv2d relu
       dropout HeapTorch] in H.

Lemma heap_bind_ok {X Y} (c : heapM X) (k : X -> heapM Y) (st st2 : store)
    (y : Y) :
  heap_bind c k st = Ok (y, st2) ->
  exists x st1, c st = Ok (x, st1) /\ k x st1 = Ok (y, st2).
Proof.
  unfold heap_bind. destruct (c st) as [[x st1]|e]; [eauto | done].
Qed.

Lemma lift_ok {X} (r : result X) (st st' : store) (x : X) :
  lift r st = Ok (x, st') -> r = Ok x /\ st' = st.
Proof. unfold lift. destruct r; [by intros [= <- <-] | done]. Qed.

Lemma safe_ret {X} (n : nat) (x : X) (Q : X -> Prop) :
  Q x -> safe n (heap_ret x) Q.
Proof. intros HQ st y st' _ [= <- <-]. split; [apply keeps_refl | done]. Qed.

Lemma safe_raise {X} (n : nat) (e : error) (Q : X -> Prop) :
  safe n (heap_raise e) Q.
Proof. by intros st y st' _ H. Qed.

Lemma safe_bind {X Y} (n : nat) (c : heapM X) (k : X -> heapM Y)
    (P : X -> Prop) (Q : Y -> Prop) :
  safe n c P -> (forall x, P x -> safe n (k x) Q) -> safe n (heap_bind c k) Q.
Proof.
  intros Hc Hk st y st2 Hn H. apply heap_bind_ok in H as (x & st1 & H1 & H2).
  destruct (Hc _ _ _ Hn H1) as [K1 HP].
  assert (Hn1 : n <= length st1) by (destruct K1; lia).
  destruct (Hk x HP _ _ _ Hn1 H2) as [K2 HQ].
  split; [by apply (keeps_trans K1) | done].
Qed.

Lemma safe_weaken {X} (n : nat) (c : heapM X) (P Q : X -> Prop) :
  safe n c P -> (forall x, P x -> Q x) -> safe n c Q.
Proof. intros Hc HPQ st x st' Hn H. destruct (Hc _ _ _ Hn H). auto. Qed.

Lemma safe_lift {X} (n : nat) (r : result X) :
  safe n (lift r) (fun _ => True).
Proof.
  intros st x st' _ H. apply lift_ok in H as [_ ->]. split; [apply keeps_refl | done].
Qed.

Lemma safe_alloc (n : nat) (s : shape) (f : list nat -> R) :
  safe n (alloc s f) (owned n).
Proof.
  intros st t st' Hn H. destruct (alloc_keeps H) as ([H1 H2] & Hl & _).
  split; [|unfold owned; lia]. split; [done|]. intros l Hl'. apply H2. lia.
Qed.

Lemma safe_update (n : nat) (t : tensor) (f : list nat -> R) :
  owned n t -> safe n (update t f) (owned n).
Proof.
  intros Ho st t' st' Hn H. unfold update in H.
  destruct (st !! loc t) as [d|]; [|done]. injection H as <- <-.
  split; [|done]. split; [by rewrite length_insert|].
  intros l Hl. apply list_lookup_insert_ne. unfold owned in Ho. lia.
Qed.

(** Allocation inside a computation that reads the store. *)
Lemma safe_alloc_with (n : nat) (s : shape) (f : store -> list nat -> R) :
  safe n (fun st => alloc s (f st) st) (owned n).
Proof. intros st t st' Hn H. by apply (@safe_alloc n s (f st) st). Qed.

Lemma safe_update_with (n : nat) (t : tensor) (f : store -> list nat -> R) :
  owned n t -> safe n (fun st => update t (f st) st) (owned n).
Proof. intros Ho st t' st' Hn H. by apply (@safe_update n t (f st) Ho st). Qed.

Lemma safe_view_op {X} (n : nat) (r : result X) (mk : X -> tensor) (t : tensor) :
  (forall x, loc (mk x) = loc t) ->
  safe n (heap_bind (lift r) (fun x => heap_ret (mk x))) (same_loc t).
Proof.
  intros Hmk. eapply safe_bind; [apply safe_lift|].
  intros x _. apply safe_ret. apply Hmk.
Qed.

Lemma safe_slice (n nidx dim : nat) (a b : option Z) (t : tensor) :
  safe n (h_slice nidx dim a b t) (same_loc t).
Proof. by apply safe_view_op. Qed.

Lemma safe_select_last (n dim : nat) (t : tensor) :
  safe n (h_select_last dim t) (same_loc t).
Proof. by apply safe_view_op. Qed.

Lemma safe_unsqueeze (n dim : nat) (t : tensor) :
  safe n (h_unsqueeze dim t) (same_loc t).
Proof. by apply safe_view_op. Qed.

Lemma safe_permute (n : nat) (dims : list nat) (t : tensor) :
  safe n (h_permute dims t) (same_loc t).
Proof. by apply safe_view_op. Qed.

Lemma safe_view (n : nat) (s : shape) (t : tensor) :
  safe n (h_view s t) (same_loc t).
Proof.
  unfold h_view. eapply safe_bind; [apply safe_lift|]. intros s' _.
  destruct (is_contiguous t); [by apply safe_ret | apply safe_raise].
Qed.

Lemma safe_contiguous (n : nat) (t : tensor) :
  safe n (h_contiguous t) (fun t' => same_loc t t' \/ owned n t').
Proof.
  unfold h_contiguous. destruct (is_contiguous t).
  - apply safe_ret. by left.
  - eapply safe_weaken; [apply safe_alloc_with|]. by right.
Qed.

Lemma safe_alloc_op {X} (n : nat) (r : result X)
    (k : X -> store -> result (tensor * store)) :
  (forall x, safe n (k x) (owned n)) ->
  safe n (heap_bind (lift r) k) (owned n).
Proof. intros Hk. eapply safe_bind; [apply safe_lift|]. intros x _. apply Hk. Qed.


Lemma safe_cat (n dim : nat) (a b : tensor) : safe n (h_cat dim a b) (owned n).
Proof. apply safe_alloc_op. intros s'. apply safe_alloc_with. Qed.

Lemma safe_add (n : nat) (a b : tensor) : safe n (h_add a b) (owned n).
Proof. apply safe_alloc_op. intros s'. apply safe_alloc_with. Qed.

Lemma safe_add_int (n : nat) (a : tensor) (z : Z) :
  safe n (h_add_int a z) (owned n).
Proof. apply safe_alloc_with. Qed.

Lemma safe_iadd (n : nat) (a b : tensor) :
  owned n a -> safe n (h_iadd a b) (owned n).
Proof.
  intros Ho. unfold h_iadd. eapply safe_bind; [apply safe_lift|].
  intros s' _. by apply safe_update_with.
Qed.

Lemma safe_mul_importance (n : nat) (a : value) (imp : importance) :
  safe n (h_mul_importance a imp) (owned n).
Proof. apply safe_alloc_op. intros s'. apply safe_alloc. Qed.

Lemma safe_einsum (n : nat) (x a : tensor) : safe n (h_einsum x a) (owned n).
Proof. apply safe_alloc_op. intros s'. apply safe_alloc_with. Qed.

Lemma safe_batch_norm (n : nat) (b : BatchNorm) (t : tensor) :
  safe n (h_batch_norm b t) (owned n).
Proof. apply safe_alloc_op. intros s'. apply safe_alloc_with. Qed.

Lemma safe_linear (n : nat) (l : Linear) (t : tensor) :
  safe n (h_linear l t) (owned n).
Proof. apply safe_alloc_op. intros s'. apply safe_alloc_with. Qed.

Lemma safe_conv2d (n : nat) (c : Conv2d) (t : tensor) :
  safe n (h_conv2d c t) (owned n).
Proof. apply safe_alloc_op. intros s'. apply safe_alloc_with. Qed.

Lemma safe_relu (n : nat) (inplace : bool) (t : tensor) :
  inplace = false \/ owned n t -> safe n (h_relu inplace t) (owned n).
Proof.
  intros H. unfold h_relu. destruct inplace.
  - destruct H as [|Ho]; [done|]. by apply safe_update_with.
  - apply safe_alloc_with.
Qed.

Lemma safe_dropout (n : nat) (d : Dropout) (t : tensor) :
  drop_inplace d = false \/ owned n t -> safe n (h_dropout d t) (owned n).
Proof.
  intros H. unfold h_dropout. destruct (drop_inplace d).
  - destruct H as [|Ho]; [done|]. by apply safe_update_with.
  - apply safe_alloc_with.
Qed.

(** ** The network writes only storages it allocated *)

Lemma safe_layer (n : nat) (l : layer) (x : tensor) :
  allocating l = true \/ owned n x ->
  safe n (layer_forward (TT := HeapTorch) l x) (owned n).
Proof.
  intros H. destruct l as [c|b|ip|d]; cbn [layer_forward]; heap_step.
  - apply safe_conv2d.
  - apply safe_batch_norm.
  - apply safe_relu. destruct H as [H|H]; [left|by right].
    simpl in H. by destruct ip.
  - apply safe_dropout. destruct H as [H|H]; [left|by right].
    simpl in H. by destruct (drop_inplace d).
Qed.

Lemma safe_sequential (n : nat) (ls : list layer) (x : tensor) :
  owned n x -> safe n (sequential_forward (TT := HeapTorch) ls x) (owned n).
Proof.
  revert x. induction ls as [|l ls IH]; intros x Hx; cbn [sequential_forward];
    heap_step.
  - by apply safe_ret.
  - eapply safe_bind; [apply safe_layer; by right|]. intros y Hy. by apply IH.
Qed.

Lemma safe_residual (n : nat) (r : residual_fn) (x : tensor) :
  residual_ok r ->
  safe n (residual_forward (TT := HeapTorch) r x) (fun _ => True).
Proof.
  intros Hr. destruct r as [| |ls]; cbn [residual_forward]; heap_step.
  - by apply safe_ret.
  - by apply safe_ret.
  - eapply safe_bind with (P := fun _ => True); [|intros; by apply safe_ret].
    destruct ls as [|l ls]; cbn [sequential_forward]; heap_step.
    + by apply safe_ret.
    + eapply safe_bind; [apply safe_layer; by left|].
      intros y Hy. eapply safe_weaken; [by apply safe_sequential | done].
Qed.

Lemma safe_py_add (n : nat) (y : tensor) (res : pyres (T := tensor)) :
  safe n (py_add (TT := HeapTorch) y res) (owned n).
Proof. destruct res; cbn [py_add]; heap_step; [apply safe_add | apply safe_add_int]. Qed.

Lemma safe_gcn_contract (n : nat) (g : ConvTemporalGraphical) (x adj : tensor) :
  safe n (gcn_contract (TT := HeapTorch) g x adj)
    (fun r => owned n (fst r) /\ snd r = adj).
Proof.
  unfold gcn_contract. heap_step.
  eapply safe_bind; [apply safe_conv2d|]. intros z Hz.
  destruct (sizes z) as [|a [|b [|c [|d [|? ?]]]]]; try apply safe_raise.
  destruct (kernel_size g =? 0); [apply safe_raise|].
  eapply safe_bind; [apply safe_view|]. intros z1 Hz1.
  eapply safe_bind; [apply safe_einsum|]. intros y Hy.
  eapply safe_bind; [apply safe_contiguous|]. intros y' Hy'.
  apply safe_ret. split; [|done]. cbn [fst].
  destruct Hy' as [E|]; [|done]. unfold owned, same_loc in *. lia.
Qed.

Lemma safe_gcn_forward (n : nat) (g : ConvTemporalGraphical) (x adj : tensor) :
  safe n (gcn_forward (TT := HeapTorch) g x adj)
    (fun r => owned n (fst r) /\ snd r = adj).
Proof.
  unfold gcn_forward, size_at. heap_step.
  eapply safe_bind with (P := fun _ => True).
  - destruct (sizes adj !! 0); [by apply safe_ret | apply safe_raise].
  - intros k _. destruct (negb _); [apply safe_raise | apply safe_gcn_contract].
Qed.

Lemma safe_block_forward (n : nat) (b : GLBGCNBlock) (x adj : tensor) :
  residual_ok (residual b) ->
  safe n (block_forward (TT := HeapTorch) b x adj)
    (fun r => owned n (fst r) /\ snd r = adj).
Proof.
  intros Hr. unfold block_forward. heap_step.
  eapply safe_bind; [by apply safe_residual|]. intros res _.
  eapply safe_bind; [apply safe_gcn_forward|]. intros [y adj'] [Hy Hadj].
  cbn [fst snd] in *. subst adj'.
  eapply safe_bind; [by apply safe_sequential|]. intros y1 Hy1.
  eapply safe_bind; [apply safe_py_add|]. intros y2 Hy2.
  eapply safe_bind; [apply safe_layer; by right|]. intros y3 Hy3.
  by apply safe_ret.
Qed.

Lemma owned_same_loc (n : nat) (t t' : tensor) :
  owned n t -> same_loc t t' -> owned n t'.
Proof. unfold owned, same_loc. lia. Qed.

Lemma safe_transform_feature (n : nat) (fc : Linear) (x : tensor) :
  safe n (transform_feature (TT := HeapTorch) fc x) (owned n).
Proof.
  unfold transform_feature. heap_step.
  eapply safe_bind; [apply safe_permute|]. intros x1 _.
  eapply safe_bind; [apply safe_linear|]. intros x2 Hx2.
  eapply safe_weaken; [apply safe_permute|]. intros x3.
  by apply owned_same_loc.
Qed.

Lemma safe_add_residue (n : nat) (r : Linear) (clone x : tensor) :
  owned n x -> safe n (add_residue (TT := HeapTorch) r clone x) (owned n).
Proof.
  intros Hx. unfold add_residue. heap_step.
  eapply safe_bind; [apply safe_linear|]. intros r1 _.
  eapply safe_bind; [apply safe_permute|]. intros r2 _.
  by apply safe_iadd.
Qed.

Lemma safe_fuse_feature (n : nat) (m : GLBGCN) (clone : tensor) (i : nat)
    (fc : Linear) (x : tensor) :
  safe n (fuse_feature (TT := HeapTorch) m clone i fc x)
    (fun r => owned n (fst r)).
Proof.
  unfold fuse_feature. heap_step.
  eapply safe_bind; [apply safe_transform_feature|]. intros x1 Hx1.
  destruct (i <? _); [|by apply safe_ret].
  destruct (feature_residue m !! i) as [r|]; [|apply safe_raise].
  eapply safe_bind; [by apply safe_add_residue|]. intros x2 Hx2.
  by apply safe_ret.
Qed.

Lemma safe_graph_step (n : nat) (m : GLBGCN) (b : GLBGCNBlock)
    (imp : importance) (x_pos x_feature : tensor) :
  residual_ok (residual b) ->
  safe n (graph_step (TT := HeapTorch) m b imp x_pos x_feature)
    (fun _ => True).
Proof.
  intros Hb. unfold graph_step. heap_step.
  eapply safe_bind; [apply safe_cat|]. intros x _.
  eapply safe_bind; [apply safe_mul_importance|]. intros adj _.
  eapply safe_bind; [by apply safe_block_forward|]. intros xa _.
  destruct (vshape (A m) !! 1); [|apply safe_raise].
  eapply safe_bind; [apply safe_slice|]. intros xp _.
  eapply safe_bind; [apply safe_select_last|]. intros xf _.
  eapply safe_bind; [apply safe_unsqueeze|]. intros xf' _.
  by apply safe_ret.
Qed.

Lemma safe_stage (n : nat) (m : GLBGCN) (clone : tensor)
    (g : GLBGCNBlock * importance * Linear) (s : loop_state (T := tensor)) :
  residual_ok (residual (fst (fst g))) ->
  safe n (stage (TT := HeapTorch) m clone g s) (fun _ => True).
Proof.
  intros Hb. unfold stage. heap_step.
  eapply safe_bind; [apply safe_fuse_feature|]. intros fi _.
  eapply safe_bind; [by apply safe_graph_step|]. intros r _.
  by apply safe_ret.
Qed.

Lemma safe_run_stages (n : nat) (m : GLBGCN) (clone : tensor)
    (stages : list (GLBGCNBlock * importance * Linear))
    (s : loop_state (T := tensor)) :
  Forall (fun g => residual_ok (residual (fst (fst g)))) stages ->
  safe n (run_stages (TT := HeapTorch) m clone stages s) (fun _ => True).
Proof.
  intros H. revert s. induction H as [|g rest Hg _ IH]; intros s;
    cbn [run_stages]; heap_step.
  - by apply safe_ret.
  - eapply safe_bind; [by apply safe_stage|]. intros s' _. apply IH.
Qed.

Lemma block_init_residual_ok (cin cout : nat) (ks : list nat) (stride : nat)
    (drop : R) (res mode : bool) (w : block_params) (b : GLBGCNBlock) :
  GLBGCNBlock_init cin cout ks stride drop res w = Ok b ->
  residual_ok (residual (block_train mode b)).
Proof.
  unfold GLBGCNBlock_init. destruct (negb (length ks =? 2)); [done|].
  destruct ks as [|k0 [|k1 ks]]; [done | done |].
  destruct (negb (k0 mod 2 =? 1)); [done|]. intros [= <-].
  cbn [residual block_train]. destruct res; cbn [negb]; [|done].
  by destruct (_ && _).
Qed.

Lemma stages_residual_ok (cfg : config) (m : GLBGCN) (mode : bool) :
  GLBGCN_init cfg = Ok m ->
  Forall (fun g => residual_ok (residual (fst (fst g))))
    (stages_of (GLBGCN_train mode m)).
Proof.
  intros Hm.
  destruct (GLBGCN_init_inv Hm)
    as (K' & b0 & b1 & b2 & b3 & b4 & b5 & b6 & b7 & b8 & b9 & _ & _ & _ & _
        & Hb0 & Hb1 & Hb2 & Hb3 & Hb4 & Hb5 & Hb6 & Hb7 & Hb8 & Hb9
        & _ & _ & _ & _ & Hblocks & Hfc & _ & Himp & _).
  rewrite stages_of_train, Hblocks, Himp, Hfc. cbn [map replicate zip zip_with].
  repeat constructor; cbn [fst]; eapply block_init_residual_ok; eassumption.
Qed.

Lemma safe_maybe_batch_norm (n : nat) (b : option BatchNorm) (x : tensor) :
  safe n (maybe_batch_norm (TT := HeapTorch) b x) (fun _ => True).
Proof.
  destruct b; cbn [maybe_batch_norm]; heap_step.
  - eapply safe_weaken; [apply safe_batch_norm | done].
  - by apply safe_ret.
Qed.

Lemma safe_normalize (n : nat) (b : option BatchNorm) (x : tensor) :
  safe n (normalize (TT := HeapTorch) b x) (fun _ => True).
Proof.
  unfold normalize. heap_step.
  eapply safe_bind with (P := fun _ => True); [by apply safe_ret|]. intros x0 _.
  destruct (sizes x0) as [|a [|b' [|c [|d [|e [|? ?]]]]]]; try apply safe_raise.
  eapply safe_bind; [apply safe_permute|]. intros x1 _.
  eapply safe_bind; [apply safe_contiguous|]. intros x2 _.
  eapply safe_bind; [apply safe_view|]. intros x3 _.
  eapply safe_bind; [apply safe_maybe_batch_norm|]. intros x4 _.
  eapply safe_bind; [apply safe_view|]. intros x5 _.
  eapply safe_bind; [apply safe_permute|]. intros x6 _.
  eapply safe_bind; [apply safe_contiguous|]. intros x7 _.
  eapply safe_weaken; [apply safe_view | done].
Qed.

Lemma reduce_nodes_fresh (m : GLBGCN) (x t : tensor) (st st' : store) :
  reduce_nodes (TT := HeapTorch) m x st = Ok (t, st') ->
  loc t = length st /\ length st' = S (length st) /\ keeps (length st) st st'.
Proof.
  unfold reduce_nodes. heap_step. intros H.
  assert (H' : exists k ne, h_reduce k ne 3 x st = Ok (t, st')).
  { destruct (String.eqb _ _); eauto. }
  destruct H' as (k & ne & H'). unfold h_reduce in H'.
  apply heap_bind_ok in H' as (s' & st1 & Hl & Ha).
  apply lift_ok in Hl as [_ ->].
  destruct (alloc_keeps Ha) as (Hk & Hloc & _).
  split; [done|]. split; [|done].
  unfold alloc in Ha. injection Ha as _ <-. rewrite length_app. simpl. lia.
Qed.

Lemma permute_ok (dims : list nat) (t t' : tensor) (st st' : store) :
  h_permute dims t st = Ok (t', st') -> st' = st /\ loc t' = loc t.
Proof.
  unfold h_permute. intros H. apply heap_bind_ok in H as (s' & st1 & Hl & Hr).
  apply lift_ok in Hl as [_ ->]. by injection Hr as <- <-.
Qed.

(** Everything before the loop, on the store: the clone is a view of
    the reduced feature stream, in a storage of its own. *)
Lemma prepare_heap_inv (m : GLBGCN) (x clone : tensor)
    (s : loop_state (T := tensor)) (st st0 : store) :
  prepare (TT := HeapTorch) m x st = Ok ((clone, s), st0) ->
  exists xs xn st1 st2,
    h_slice 5 1 (Some (Z.of_nat (in_channel m))) None x st = Ok (xs, st) /\
    normalize (TT := HeapTorch) (data_bn_feature m) xs st = Ok (xn, st1) /\
    reduce_nodes (TT := HeapTorch) m xn st1 = Ok (ls_x_feature s, st2) /\
    h_permute [0; 2; 3; 1] (ls_x_feature s) st2 = Ok (clone, st2) /\
    ls_i s = 0 /\ ls_x s = x /\
    loc clone = loc (ls_x_feature s) /\
    length st <= loc clone /\ loc clone < length st0 /\
    keeps (length st2) st2 st0.
Proof.
  unfold prepare. heap_step. intros H.
  apply heap_bind_ok in H as (xp0 & sta & H1 & H).
  apply heap_bind_ok in H as (xs & stb & H2 & H).
  apply heap_bind_ok in H as (xn & st1 & H3 & H).
  apply heap_bind_ok in H as (xf & st2 & H4 & H).
  apply heap_bind_ok in H as (cl & st2' & H5 & H).
  apply heap_bind_ok in H as (xp & st3 & H6 & H).
  injection H as <- <- <-. cbn [ls_i ls_x ls_x_feature].
  assert (sta = st) as ->.
  { unfold h_slice in H1. apply heap_bind_ok in H1 as (? & ? & Hl & Hr).
    apply lift_ok in Hl as [_ ->]. by injection Hr as _ <-. }
  assert (stb = st) as ->.
  { unfold h_slice in H2. apply heap_bind_ok in H2 as (? & ? & Hl & Hr).
    apply lift_ok in Hl as [_ ->]. by injection Hr as _ <-. }
  destruct (permute_ok H5) as [-> Hloc].
  destruct (reduce_nodes_fresh H4) as (Hxf & Hlen & _).
  destruct (@safe_normalize (length st) _ _ _ _ _ (Nat.le_refl _) H3) as [[Hl1 _] _].
  destruct (@safe_normalize (length st2) _ _ _ _ _ (Nat.le_refl _) H6) as [K6 _].
  exists xs, xn, st1, st2. repeat split; try done; try (destruct K6; lia).
  by apply K6.
Qed.

(** ** The cached feature *)

Lemma h_linear_reads (r : Linear) (t : tensor) (st : store) (v : value) :
  tread st t = v ->
  h_linear r t st
  = heap_bind (lift (sh_linear r (sizes t)))
      (fun s' => alloc s' (linear_k r v)) st.
Proof.
  intros <-. unfold h_linear, heap_bind, lift. by destruct (sh_linear _ _).
Qed.

(** C6. The clone is taken once, before the loop, as a view of the
    normalised and node-reduced feature stream; no prefix of the loop
    changes the storage it views, every residue projection reads the
    value cached before the loop, and the in-place addition writes to the
    storage of the stage's transformed feature, which is another one. *)
Theorem feature_clone_never_modified (cfg : config) (m : GLBGCN) (mode : bool)
    (x clone : tensor) (s : loop_state (T := tensor)) (st st0 : store) :
  GLBGCN_init cfg = Ok m ->
  prepare (TT := HeapTorch) (GLBGCN_train mode m) x st = Ok ((clone, s), st0) ->
  (exists xs xn st1 st2,
     h_slice 5 1 (Some (Z.of_nat (in_channel m))) None x st = Ok (xs, st) /\
     normalize (TT := HeapTorch)
       (data_bn_feature (GLBGCN_train mode m)) xs st = Ok (xn, st1) /\
     reduce_nodes (TT := HeapTorch) (GLBGCN_train mode m) xn st1
       = Ok (ls_x_feature s, st2) /\
     h_permute [0; 2; 3; 1] (ls_x_feature s) st2 = Ok (clone, st2)) /\
  valid st0 clone /\
  forall j s' st',
    run_stages (TT := HeapTorch) (GLBGCN_train mode m) clone
      (take j (stages_of (GLBGCN_train mode m))) s st0 = Ok (s', st') ->
    keeps (length st0) st0 st' /\
    tread st' clone = tread st0 clone /\
    forall fc x1 st1,
      transform_feature (TT := HeapTorch) fc (ls_x_feature s') st'
        = Ok (x1, st1) ->
      loc x1 <> loc clone /\
      tread st1 clone = tread st0 clone /\
      forall r,
        h_linear r clone st1
        = heap_bind (lift (sh_linear r (sizes clone)))
            (fun s2 => alloc s2 (linear_k r (tread st0 clone))) st1.
Proof.
  intros Hm Hp.
  destruct (prepare_heap_inv Hp)
    as (xs & xn & st1 & st2 & H1 & H2 & H3 & H4 & _ & _ & _ & _ & Hv & _).
  split; [by exists xs, xn, st1, st2|]. split; [done|].
  intros j s' st' Hrun.
  assert (Hok : Forall (fun g => residual_ok (residual (fst (fst g))))
                  (take j (stages_of (GLBGCN_train mode m))))
    by (apply Forall_take, stages_residual_ok with (cfg := cfg); done).
  pose proof (@safe_run_stages (length st0) (GLBGCN_train mode m) clone _ s Hok)
    as Hs.
  destruct (Hs _ _ _ (Nat.le_refl _) Hrun) as [K _].
  split; [done|]. split; [by apply (tread_keeps K)|].
  intros fc x1 st1' Htr.
  assert (Hn : length st0 <= length st') by (by destruct K).
  destruct (@safe_transform_feature (length st0) fc (ls_x_feature s')
              st' x1 st1' Hn Htr) as [K' Ho].
  pose proof (keeps_trans K K') as K2.
  split; [unfold owned, valid in *; lia|].
  pose proof (tread_keeps K2 Hv) as Hread.
  split; [done|]. intros r. by apply h_linear_reads.
Qed.

(** ** The residue projections and the counter [i] *)




Lemma heap_bind_ext {X Y} (c c' : heapM X) (k k' : X -> heapM Y) (st : store) :
  c st = c' st -> (forall x st1, k x st1 = k' x st1) ->
  heap_bind c k st = heap_bind c' k' st.
Proof.
  intros Hc Hk. unfold heap_bind. rewrite Hc.
  destruct (c' st) as [[x st1]|e]; [apply Hk | done].
Qed.




Lemma prepare_ext (m m2 : GLBGCN) (x : tensor) (st : store) :
  in_channel m2 = in_channel m -> reduction m2 = reduction m ->
  data_bn m2 = data_bn m -> data_bn_feature m2 = data_bn_feature m ->
  prepare (TT := HeapTorch) m2 x st = prepare (TT := HeapTorch) m x st.
Proof.
  intros H1 H2 H3 H4. unfold prepare, reduce_nodes.
  by rewrite H1, H2, H3, H4.
Qed.



(** ** The residual branch of a block *)



(** ** Edge importance of ones *)

Lemma vget_ones (s : shape) (idx : list nat) :
  in_range idx s -> vget (ones s) idx = rofZ 1.
Proof.
  intros H. unfold vget, ones. cbn [vshape vdata].
  destruct (unravel_dot H) as [Hlt _].
  apply nth_lookup_Some with (d := rzero), lookup_replicate_2. done.
Qed.

Lemma mul_importance_at_ones (a : value) (idx : list nat) :
  in_range idx (vshape a) ->
  mul_importance_at a (ImpParam (ones (vshape a))) idx
  = mul_importance_at a (ImpInt 1) idx.
Proof.
  intros H. unfold mul_importance_at.
  change (vshape (ones (vshape a))) with (vshape a).
  by rewrite (bidx_in_range H), (vget_ones H).
Qed.

(** Multiplying by the integer 1 and by the all-ones parameter are the
    same computation. *)
Lemma h_mul_importance_ones (a : value) (st : store) :
  h_mul_importance a (ImpParam (ones (vshape a))) st
  = h_mul_importance a (ImpInt 1) st.
Proof.
  unfold h_mul_importance, heap_bind, lift. cbn [sh_mul_importance].
  change (vshape (ones (vshape a))) with (vshape a).
  rewrite sh_broadcast_same. unfold alloc. do 4 f_equal.
  apply map_ext_in. intros idx Hidx.
  apply mul_importance_at_ones, elem_of_indices, list_elem_of_In, Hidx.
Qed.

Lemma map_vget_indices (a : value) :
  length (vdata a) = numel (vshape a) ->
  map (vget a) (indices (vshape a)) = vdata a.
Proof.
  intros Hlen. unfold indices. rewrite map_map.
  apply nth_ext with (d := rzero) (d' := rzero).
  - by rewrite length_map, length_seq.
  - intros i Hi. rewrite length_map, length_seq in Hi.
    rewrite nth_map_seq by done. unfold vget. by rewrite dot_unravel.
Qed.

Lemma stage_importance_ext (m m2 : GLBGCN) (clone : tensor)
    (b : GLBGCNBlock) (imp imp2 : importance) (fc : Linear)
    (s : loop_state (T := tensor)) (st : store) :
  A m2 = A m -> feature_residue m2 = feature_residue m ->
  (forall st1, h_mul_importance (A m) imp2 st1 = h_mul_importance (A m) imp st1) ->
  stage (TT := HeapTorch) m2 clone (b, imp2, fc) s st
  = stage (TT := HeapTorch) m clone (b, imp, fc) s st.
Proof.
  intros HA HR Himp. unfold stage, fuse_feature, graph_step. heap_step.
  cbn [fst snd]. rewrite HA, HR.
  apply heap_bind_ext; [done|]. intros fi st1.
  apply heap_bind_ext; [|done].
  apply heap_bind_ext; [done|]. intros x st2.
  apply heap_bind_ext; [apply Himp | done].
Qed.

Lemma run_stages_importance_ext (m m2 : GLBGCN) (clone : tensor)
    (gs : list (GLBGCNBlock * Linear)) (imp imp2 : importance)
    (s : loop_state (T := tensor)) (st : store) :
  A m2 = A m -> feature_residue m2 = feature_residue m ->
  (forall st1, h_mul_importance (A m) imp2 st1 = h_mul_importance (A m) imp st1) ->
  run_stages (TT := HeapTorch) m2 clone
    (map (fun g => (fst g, imp2, snd g)) gs) s st
  = run_stages (TT := HeapTorch) m clone
      (map (fun g => (fst g, imp, snd g)) gs) s st.
Proof.
  intros HA HR Himp. revert s st. induction gs as [|g gs IH]; intros s st;
    cbn [run_stages map]; heap_step; [done|].
  apply heap_bind_ext; [by apply stage_importance_ext | apply IH].
Qed.

Lemma forward_shape_ext (m m2 : GLBGCN) (x : shape) :
  in_channel m2 = in_channel m -> reduction m2 = reduction m ->
  data_bn m2 = data_bn m -> data_bn_feature m2 = data_bn_feature m ->
  A m2 = A m -> feature_residue m2 = feature_residue m ->
  st_gcn_networks m2 = st_gcn_networks m ->
  feature_transform m2 = feature_transform m ->
  (exists imp imp2 n,
     edge_importance m = replicate n imp /\
     edge_importance m2 = replicate n imp2 /\
     sh_mul_importance (A m) imp2 = sh_mul_importance (A m) imp) ->
  forward_shape m2 x = forward_shape m x.
Proof.
  intros H1 H2 H3 H4 HA HR HB HF (imp & imp2 & n & Hi & Hi2 & Himp).
  unfold forward_shape, forward, prepare, reduce_nodes, stages_of.
  rewrite H1, H2, H3, H4, HB, HF, Hi, Hi2. shape_step.
  destruct (sh_slice 5 1 _ _ x) as [xp|]; [|done]. shape_step.
  destruct (sh_slice 5 1 _ _ x) as [xf|]; [|done]. shape_step.
  destruct (normalize (TT := ShapeTorch) (data_bn_feature m) xf) as [xn|]; [|done].
  shape_step.
  destruct (if String.eqb (reduction m) "avg" then _ else _) as [xr|]; [|done].
  shape_step. destruct (sh_permute _ xr) as [cl|]; [|done]. shape_step.
  destruct (normalize (TT := ShapeTorch) (data_bn m) xp) as [xq|]; [|done].
  shape_step.
  assert (Hrun : forall (bs : list GLBGCNBlock) (fs : list Linear) k s,
            run_stages (TT := ShapeTorch) m2 cl
              (zip (zip bs (replicate k imp2)) fs) s
            = run_stages (TT := ShapeTorch) m cl
                (zip (zip bs (replicate k imp)) fs) s).
  { induction bs as [|b bs IH]; intros fs k s; [done|].
    destruct k as [|k]; [done|]. destruct fs as [|f fs]; [done|].
    cbn [replicate zip zip_with run_stages]. shape_step.
    assert (Hs : stage (TT := ShapeTorch) m2 cl (b, imp2, f) s
                 = stage (TT := ShapeTorch) m cl (b, imp, f) s).
    { unfold stage, fuse_feature, graph_step. shape_step.
      by rewrite HA, HR, Himp. }
    rewrite Hs. destruct (stage (TT := ShapeTorch) m cl (b, imp, f) s); [|done].
    shape_step. apply IH. }
  by rewrite Hrun.
Qed.

(** C4. Built without edge-importance weighting the backbone multiplies
    the adjacency by the integer 1, built with it by a parameter of ones
    of the shape of the adjacency; the two products are the same tensor,
    the forward passes of the two backbones agree on every input, and
    with [a * 1 = a] for the elements each product is the adjacency
    itself. *)
Theorem edge_importance_off_equals_all_ones (cfg : config)
    (m_off m_on : GLBGCN) (mode : bool) :
  GLBGCN_init (with_edge_importance_weighting false cfg) = Ok m_off ->
  GLBGCN_init (with_edge_importance_weighting true cfg) = Ok m_on ->
  edge_importance m_off = replicate 10 (ImpInt 1) /\
  edge_importance m_on = replicate 10 (ImpParam (ones (vshape (cfg_A cfg)))) /\
  (forall x st,
     forward_heap (GLBGCN_train mode m_off) x st
     = forward_heap (GLBGCN_train mode m_on) x st) /\
  (forall s,
     forward_shape (GLBGCN_train mode m_off) s
     = forward_shape (GLBGCN_train mode m_on) s) /\
  ((forall a, rmul a (rofZ 1) = a) ->
   length (vdata (cfg_A cfg)) = numel (vshape (cfg_A cfg)) ->
   forall imp st adj st',
     imp = ImpInt 1 \/ imp = ImpParam (ones (vshape (cfg_A cfg))) ->
     h_mul_importance (cfg_A cfg) imp st = Ok (adj, st') ->
     tread st' adj = cfg_A cfg).
Proof.
  intros Hoff Hon.
  destruct (GLBGCN_init_inv Hoff)
    as (K & b0 & b1 & b2 & b3 & b4 & b5 & b6 & b7 & b8 & b9 & _ & HK & Hbn & Hbnf
        & Hb0 & Hb1 & Hb2 & Hb3 & Hb4 & Hb5 & Hb6 & Hb7 & Hb8 & Hb9
        & HA & Hc & Hred & _ & Hblocks & Hfc & Hres & Himp & _).
  destruct (GLBGCN_init_inv Hon)
    as (K' & c0 & c1 & c2 & c3 & c4 & c5 & c6 & c7 & c8 & c9 & _ & HK' & Hbn' & Hbnf'
        & Hc0 & Hc1 & Hc2 & Hc3 & Hc4 & Hc5 & Hc6 & Hc7 & Hc8 & Hc9
        & HA' & Hc' & Hred' & _ & Hblocks' & Hfc' & Hres' & Himp' & _).
  cbn [with_edge_importance_weighting cfg_in_channels cfg_A
       cfg_edge_importance_weighting cfg_data_bn cfg_pretrained cfg_reduction
       cfg_dropout cfg_params] in *.
  assert (K' = K) as -> by congruence.
  assert (Hbl : st_gcn_networks m_on = st_gcn_networks m_off).
  { rewrite Hblocks, Hblocks'. repeat f_equal; congruence. }
  split; [done|]. split; [done|]. split; [|split].
  - intros x st. unfold forward_heap, forward. heap_step.
    apply heap_bind_ext.
    { apply prepare_ext; cbn [in_channel reduction data_bn data_bn_feature
        GLBGCN_train]; congruence. }
    intros [cl s0] st1. cbn [fst snd].
    apply heap_bind_ext; [|done].
    rewrite !stages_of_train, Hbl, Himp, Himp', Hfc, Hfc', Hblocks.
    cbn [map replicate zip zip_with].
    apply (@run_stages_importance_ext (GLBGCN_train mode m_on)
             (GLBGCN_train mode m_off) cl
             [ (block_train mode b0, _); (block_train mode b1, _);
               (block_train mode b2, _); (block_train mode b3, _);
               (block_train mode b4, _); (block_train mode b5, _);
               (block_train mode b6, _); (block_train mode b7, _);
               (block_train mode b8, _); (block_train mode b9, _) ]
             (ImpParam (ones (vshape (cfg_A cfg)))) (ImpInt 1) s0 st1).
    + cbn [A GLBGCN_train]. congruence.
    + cbn [feature_residue GLBGCN_train]. congruence.
    + intros st2. cbn [A GLBGCN_train]. rewrite HA'.
      symmetry. apply h_mul_importance_ones.
  - intros s. apply forward_shape_ext;
      cbn [in_channel reduction data_bn data_bn_feature A feature_residue
           st_gcn_networks feature_transform edge_importance GLBGCN_train];
      try congruence.
    exists (ImpParam (ones (vshape (cfg_A cfg)))), (ImpInt 1), 10.
    split; [done|]. split; [done|]. rewrite HA'. simpl.
    by rewrite sh_broadcast_same.
  - intros H1 Hwf imp st adj st' Himp0 Hmul.
    assert (Hmul1 : h_mul_importance (cfg_A cfg) (ImpInt 1) st = Ok (adj, st')).
    { destruct Himp0 as [-> | ->]; [done|]. by rewrite <- h_mul_importance_ones. }
    unfold h_mul_importance, heap_bind, lift in Hmul1.
    cbn [sh_mul_importance] in Hmul1.
    unfold tread. destruct (alloc_keeps Hmul1) as (_ & _ & _ & Hs & _ & _).
    rewrite Hs. destruct (cfg_A cfg) as [s d] eqn:Ea. cbn [vshape vdata] in *.
    f_equal.
    transitivity (map (vget (Value s d)) (indices s));
      [|by apply (map_vget_indices (a := Value s d))].
    apply map_ext_in. intros idx Hidx.
    apply list_elem_of_In, elem_of_indices in Hidx.
    rewrite (tget_alloc Hmul1 Hidx). unfold mul_importance_at. apply H1.
Qed.

(** ** The contraction of the graph convolution *)



Lemma strides_agree_refl (s st : list nat) :
  length st = length s -> strides_agree s st st = true.
Proof.
  revert st. induction s as [|d s IH]; intros [|k st] H; simpl in *; try done.
  rewrite Nat.eqb_refl, orb_true_r. simpl. apply IH. lia.
Qed.

Lemma length_contiguous_strides (s : shape) :
  length (contiguous_strides s) = length s.
Proof. induction s; simpl; congruence. Qed.

Lemma is_contiguous_fresh (t : tensor) :
  strides t = contiguous_strides (sizes t) -> is_contiguous t = true.
Proof.
  intros H. unfold is_contiguous. rewrite H.
  rewrite strides_agree_refl by apply length_contiguous_strides.
  apply orb_true_r.
Qed.





(** ** The exceptions of the graph convolution *)

Lemma conv_out_size_err (len k stride pad dil : nat) (e : error) :
  conv_out_size len k stride pad dil = Err e -> e = RuntimeError.
Proof.
  unfold conv_out_size. destruct (_ || _); [by intros [= <-]|].
  cbv zeta. destruct (_ <? _); [by intros [= <-] | done].
Qed.

Lemma sh_conv2d_err (c : Conv2d) (s : shape) (e : error) :
  sh_conv2d c s = Err e -> e = RuntimeError.
Proof.
  unfold sh_conv2d.
  destruct s as [|n [|ci [|h [|w [|? ?]]]]]; try by intros [= <-].
  destruct (_ =? _); [|by intros [= <-]].
  destruct (conv_out_size h _ _ _ _) as [h'|e1] eqn:E1; simpl.
  - destruct (conv_out_size w _ _ _ _) as [w'|e2] eqn:E2; simpl; [done|].
    intros [= <-]. by apply conv_out_size_err in E2.
  - intros [= <-]. by apply conv_out_size_err in E1.
Qed.

Lemma sh_view_err (new s : shape) (e : error) :
  sh_view new s = Err e -> e = RuntimeError.
Proof. unfold sh_view. destruct (_ =? _); [done | by intros [= <-]]. Qed.

Lemma sh_einsum_err (x a : shape) (e : error) :
  sh_einsum x a = Err e -> e = RuntimeError.
Proof.
  unfold sh_einsum.
  destruct x as [|n [|k [|c [|t [|v [|? ?]]]]]]; try by intros [= <-].
  destruct a as [|k' [|v' [|w [|? ?]]]]; try by intros [= <-].
  destruct (_ && _); [done | by intros [= <-]].
Qed.

Lemma gcn_contract_shape_err (g : ConvTemporalGraphical) (x adj : shape)
    (e : error) :
  gcn_contract (TT := ShapeTorch) g x adj = Err e -> e <> AssertionError.
Proof.
  unfold gcn_contract. shape_step.
  destruct (sh_conv2d (conv g) x) as [z|e1] eqn:E1; shape_step;
    [|intros [= <-]; by rewrite (sh_conv2d_err E1)].
  destruct z as [|n [|kc [|t [|v [|? ?]]]]]; try by intros [= <-].
  destruct (_ =? 0); [by intros [= <-]|].
  destruct (sh_view _ _) as [z1|e2] eqn:E2; shape_step;
    [|intros [= <-]; by rewrite (sh_view_err E2)].
  destruct (sh_einsum z1 adj) as [z2|e3] eqn:E3; shape_step; [done|].
  intros [= <-]. by rewrite (sh_einsum_err E3).
Qed.

Lemma heap_alloc_op_err {X} (r : result X)
    (k : X -> store -> result (tensor * store)) (st : store) (e : error) :
  (forall x st1, k x st1 <> Err e) ->
  heap_bind (lift r) k st = Err e -> r = Err e.
Proof.
  intros Hk. unfold heap_bind, lift. destruct r as [x|e']; [|by intros [= <-]].
  intros H. by destruct (Hk x st).
Qed.

Lemma gcn_contract_heap_err (g : ConvTemporalGraphical) (x adj : tensor)
    (st : store) (e : error) :
  gcn_contract (TT := HeapTorch) g x adj st = Err e -> e <> AssertionError.
Proof.
  unfold gcn_contract. heap_step. unfold heap_bind at 1.
  destruct (h_conv2d (conv g) x st) as [[z st1]|e1] eqn:E1.
  2:{ intros [= <-]. unfold h_conv2d in E1.
      apply heap_alloc_op_err in E1; [|done].
      by rewrite (sh_conv2d_err E1). }
  destruct (sizes z) as [|n [|kc [|t [|v [|? ?]]]]]; try by intros [= <-].
  destruct (_ =? 0); [by intros [= <-]|].
  unfold heap_bind at 1.
  destruct (h_view _ z st1) as [[z1 st2]|e2] eqn:E2.
  2:{ intros [= <-]. unfold h_view, heap_bind, lift in E2.
      destruct (sh_view _ _) as [s'|e'] eqn:E'.
      - destruct (is_contiguous z); [done|]. by injection E2 as <-.
      - injection E2 as <-. by rewrite (sh_view_err E'). }
  unfold heap_bind at 1.
  destruct (h_einsum z1 adj st2) as [[z2 st3]|e3] eqn:E3.
  2:{ intros [= <-]. unfold h_einsum in E3.
      apply heap_alloc_op_err in E3; [|done].
      by rewrite (sh_einsum_err E3). }
  unfold heap_bind, h_contiguous.
  destruct (is_contiguous z2); [done|]. by unfold alloc.
Qed.

(** C7. The graph convolution raises an assertion error exactly when
    the first dimension of the adjacency differs from the kernel size of
    the unit; when they agree the assertion passes and the call is the
    computation that follows it. *)
Theorem gcn_forward_assertion (g : ConvTemporalGraphical) :
  (forall x adj,
     gcn_forward (TT := ShapeTorch) g x adj = Err AssertionError
     <-> exists k rest, adj = k :: rest /\ k <> kernel_size g) /\
  (forall x adj st,
     gcn_forward (TT := HeapTorch) g x adj st = Err AssertionError
     <-> exists k rest, sizes adj = k :: rest /\ k <> kernel_size g) /\
  (forall x rest,
     gcn_forward (TT := ShapeTorch) g x (kernel_size g :: rest)
     = gcn_contract (TT := ShapeTorch) g x (kernel_size g :: rest)) /\
  (forall x adj rest st,
     sizes adj = kernel_size g :: rest ->
     gcn_forward (TT := HeapTorch) g x adj st
     = gcn_contract (TT := HeapTorch) g x adj st).
Proof.
  split; [|split; [|split]].
  - intros x adj. unfold gcn_forward, size_at. shape_step.
    destruct adj as [|k rest]; cbn [lookup list_lookup]; shape_step.
    + split; [done | by intros (k & rest & ? & _)].
    + destruct (Nat.eqb_spec k (kernel_size g)) as [->|Hne]; cbn [negb].
      * split; [intros H; by apply gcn_contract_shape_err in H|].
        intros (k & rest' & [= <- <-] & Hk). done.
      * split; [intros _; by exists k, rest | done].
  - intros x adj st. unfold gcn_forward, size_at. heap_step.
    destruct (sizes adj) as [|k rest]; cbn [lookup list_lookup].
    + split; [done | by intros (k & rest & ? & _)].
    + unfold heap_bind at 1, heap_ret.
      destruct (Nat.eqb_spec k (kernel_size g)) as [->|Hne]; cbn [negb].
      * split; [intros H; by apply gcn_contract_heap_err in H|].
        intros (k & rest' & [= <- <-] & Hk). done.
      * split; [intros _; by exists k, rest | done].
  - intros x rest. unfold gcn_forward, size_at. shape_step.
    cbn [lookup list_lookup]. shape_step. by rewrite Nat.eqb_refl.
  - intros x adj rest st Hadj. unfold gcn_forward, size_at. heap_step.
    rewrite Hadj. cbn [lookup list_lookup]. unfold heap_bind at 1, heap_ret.
    by rewrite Nat.eqb_refl.
Qed.

(** ** [init_weights] *)

Lemma elem_of_block_modules (b : GLBGCNBlock) (k : module_kind) :
  k ∈ gcn_modules (gcn b) ++ sequential_modules (tcn b)
        ++ residual_modules (residual b) ->
  k ∈ block_modules b.
Proof.
  intros H. unfold block_modules. rewrite !app_assoc.
  apply elem_of_cons. right. apply elem_of_app. left.
  by rewrite <- !app_assoc.
Qed.

Lemma elem_of_init_calls (ms : list module_kind) (k : module_kind) (c : call) :
  k ∈ ms -> c ∈ init_module k -> c ∈ flat_map init_module ms.
Proof.
  intros Hk Hc. apply list_elem_of_In, in_flat_map.
  exists k. by rewrite <- !list_elem_of_In.
Qed.

Lemma init_calls_conv (ms : list module_kind) (c : Conv2d) :
  MConv2d c ∈ ms -> KaimingInit c ∈ flat_map init_module ms.
Proof.
  intros H. apply (elem_of_init_calls H). by apply list_elem_of_singleton.
Qed.

Lemma init_calls_linear (ms : list module_kind) (l : Linear) :
  MLinear l ∈ ms -> NormalInit l ∈ flat_map init_module ms.
Proof.
  intros H. apply (elem_of_init_calls H). by apply list_elem_of_singleton.
Qed.

Lemma init_calls_bn (ms : list module_kind) (b : BatchNorm) :
  MBatchNorm b ∈ ms -> ConstantInit b 1 ∈ flat_map init_module ms.
Proof.
  intros H. apply (elem_of_init_calls H). by apply list_elem_of_singleton.
Qed.

Lemma init_calls_not_load (ms : list module_kind) (f : string) (b : bool) :
  LoadCheckpoint f b ∉ flat_map init_module ms.
Proof.
  intros H. apply list_elem_of_In, in_flat_map in H as (k & _ & H).
  destruct k; cbn in H; intuition discriminate.
Qed.

(** C8. [init_weights] raises a type error exactly when [pretrained] is
    neither a string nor [None], and raises nothing else.  For a string
    it logs and calls [load_checkpoint] with [strict=False], and
    initialises nothing.  For [None] it loads nothing and walks the
    modules: every convolution of every block (graph, temporal and
    residual), every linear projection and every batch normalisation
    (with the constant 1) is handed to its initialiser. *)
Theorem init_weights_cases (m : GLBGCN) :
  (init_weights m = Err TypeError
   <-> pretrained m <> PyNone /\ forall s, pretrained m <> PyStr s) /\
  (forall e, init_weights m = Err e -> e = TypeError) /\
  (forall s, pretrained m = PyStr s ->
     init_weights m
     = Ok [ LoggerInfo (String.append "load model from: " s);
            LoadCheckpoint s false ]) /\
  (pretrained m = PyNone ->
     exists calls,
       init_weights m = Ok calls /\
       calls = flat_map init_module (GLBGCN_modules m) /\
       (forall f b, LoadCheckpoint f b ∉ calls) /\
       (forall b, b ∈ st_gcn_networks m ->
          KaimingInit (conv (gcn b)) ∈ calls /\
          (forall c, LConv2d c ∈ tcn b -> KaimingInit c ∈ calls) /\
          (forall n, LBatchNorm n ∈ tcn b -> ConstantInit n 1 ∈ calls) /\
          (forall ls, residual b = Fsequential ls ->
             (forall c, LConv2d c ∈ ls -> KaimingInit c ∈ calls) /\
             (forall n, LBatchNorm n ∈ ls -> ConstantInit n 1 ∈ calls))) /\
       (forall l, l ∈ feature_transform m -> NormalInit l ∈ calls) /\
       (forall l, l ∈ feature_residue m -> NormalInit l ∈ calls) /\
       (forall n, data_bn m = Some n -> ConstantInit n 1 ∈ calls) /\
       (forall n, data_bn_feature m = Some n -> ConstantInit n 1 ∈ calls)).
Proof.
  unfold init_weights. split; [|split; [|split]].
  - destruct (pretrained m) as [|s|tag]; cbn.
    + split; [done | by intros [? _]].
    + split; [done | intros [_ H]; by destruct (H s)].
    + split; [by intros _ | done].
  - intros e. destruct (pretrained m) as [|s|tag]; cbn; congruence.
  - by intros s ->.
  - intros ->. cbn [is_none]. eexists. split; [done|]. split; [done|].
    assert (Hblock : forall b k, b ∈ st_gcn_networks m ->
              k ∈ gcn_modules (gcn b) ++ sequential_modules (tcn b)
                    ++ residual_modules (residual b) ->
              k ∈ GLBGCN_modules m).
    { intros b k Hb Hk. unfold GLBGCN_modules.
      apply elem_of_cons. right. apply elem_of_app. right.
      apply elem_of_app. right. apply elem_of_app. left.
      apply elem_of_cons. right. apply list_elem_of_In, in_flat_map.
      exists b. rewrite <- !list_elem_of_In.
      split; [done | by apply elem_of_block_modules]. }
    assert (Hseq : forall ls l, l ∈ ls ->
              forall k, k ∈ layer_modules l -> k ∈ sequential_modules ls).
    { intros ls l Hl k Hk. unfold sequential_modules.
      apply elem_of_cons. right. apply list_elem_of_In, in_flat_map.
      exists l. by rewrite <- !list_elem_of_In. }
    split; [apply init_calls_not_load|].
    split; [|split; [|split; [|split]]].
    + intros b Hb. split; [|split; [|split]].
      * apply init_calls_conv.
        apply (Hblock b); [done|]. apply elem_of_app. left.
        unfold gcn_modules. apply elem_of_cons. right. by apply list_elem_of_singleton.
      * intros c Hc.
        apply init_calls_conv.
        apply (Hblock b); [done|]. apply elem_of_app. right.
        apply elem_of_app. left. eapply Hseq; [done|].
        by apply list_elem_of_singleton.
      * intros n Hn.
        apply init_calls_bn.
        apply (Hblock b); [done|]. apply elem_of_app. right.
        apply elem_of_app. left. eapply Hseq; [done|].
        by apply list_elem_of_singleton.
      * intros ls Hres. split.
        -- intros c Hc.
           apply init_calls_conv.
           apply (Hblock b); [done|]. apply elem_of_app. right.
           apply elem_of_app. right. rewrite Hres. cbn [residual_modules].
           eapply Hseq; [done|]. by apply list_elem_of_singleton.
        -- intros n Hn.
           apply init_calls_bn.
           apply (Hblock b); [done|]. apply elem_of_app. right.
           apply elem_of_app. right. rewrite Hres. cbn [residual_modules].
           eapply Hseq; [done|]. by apply list_elem_of_singleton.
    + intros l Hl.
      apply init_calls_linear.
      unfold GLBGCN_modules. apply elem_of_cons. right.
      do 3 (apply elem_of_app; right). apply elem_of_app. left.
      apply elem_of_cons. right. apply list_elem_of_In, in_map. by apply list_elem_of_In.
    + intros l Hl.
      apply init_calls_linear.
      unfold GLBGCN_modules. apply elem_of_cons. right.
      do 4 (apply elem_of_app; right). apply elem_of_app. left.
      apply elem_of_cons. right. apply list_elem_of_In, in_map. by apply list_elem_of_In.
    + intros n Hn.
      apply init_calls_bn.
      unfold GLBGCN_modules. rewrite Hn. apply elem_of_cons. right.
      apply elem_of_app. left. by apply list_elem_of_singleton.
    + intros n Hn.
      apply init_calls_bn.
      unfold GLBGCN_modules. rewrite Hn.
      apply elem_of_cons. right. apply elem_of_app. right.
      apply elem_of_app. left. by apply list_elem_of_singleton.
Qed.

(** ** The shape of the output of [forward] *)




(** ** What [forward] requires of the input *)




(** ** The node dimension of the output *)















(** * Further properties of the blocks and of the constructor *)

(** ** [GLBGCNBlock.__init__] *)



(** ** [GLBGCNBlock.forward] for any temporal kernel *)


(** ** [GLBGCN.__init__] *)




(** ** The ten blocks *)

(** The blocks as the constructor lays them out.  The first block has no
    residual branch and a dropout rate of 0 whatever [dropout] is passed;
    the blocks of index 4 and 7, which change the channel count, have the
    learned projection, all others the identity; the configured rate
    reaches the nine other blocks.  The feature projection of a stage
    produces the channels that enter its block, and consumes the
    channels that leave the block before. *)
Theorem block_schedule (cfg : config) (m : GLBGCN) :
  GLBGCN_init cfg = Ok m ->
  let c := cfg_in_channels cfg in
  let d := default (rofZ 0) (cfg_dropout cfg) in
  map (fun b => branch_of (residual b)) (st_gcn_networks m)
  = [ ZeroBranch; IdentityBranch; IdentityBranch; IdentityBranch;
      ProjectionBranch; IdentityBranch; IdentityBranch; ProjectionBranch;
      IdentityBranch; IdentityBranch ] /\
  map dropout_rates (st_gcn_networks m)
  = [ [rofZ 0]; [d]; [d]; [d]; [d]; [d]; [d]; [d]; [d]; [d] ] /\
  map block_channels (st_gcn_networks m)
  = [ (c, [64]); (64, [64]); (64, [64]); (64, [64]); (64, [128]);
      (128, [128]); (128, [128]); (128, [256]); (256, [256]); (256, [256]) ] /\
  map out_features (feature_transform m)
  = map (fun b => fst (block_channels b)) (st_gcn_networks m) /\
  map (fun l => [in_features l]) (drop 1 (feature_transform m))
  = map (fun b => snd (block_channels b)) (take 9 (st_gcn_networks m)) /\
  length (stages_of m) = 10.
Proof.
  intros Hm c d.
  destruct (GLBGCN_init_inv Hm)
    as (K & b0 & b1 & b2 & b3 & b4 & b5 & b6 & b7 & b8 & b9 & Hred & HK
        & Hbn & Hbnf & H0 & H1 & H2 & H3 & H4 & H5 & H6 & H7 & H8 & H9
        & HA & Hc & Hr & Hpre & Hblocks & Hfc & Hres & Himp & Hpl).
  unfold stages_of. rewrite Hblocks, Hfc, Himp.
  rewrite GLBGCNBlock_init_k9 in H0, H1, H2, H3, H4, H5, H6, H7, H8, H9.
  injection H0 as <-. injection H1 as <-. injection H2 as <-.
  injection H3 as <-. injection H4 as <-. injection H5 as <-.
  injection H6 as <-. injection H7 as <-. injection H8 as <-.
  injection H9 as <-.
  repeat split.
Qed.

(** ** [GLBGCN.forward] on an input that is not five-dimensional *)

Lemma prepare_shape_rank_low (m : GLBGCN) (s : shape) :
  length s < 5 -> prepare (TT := ShapeTorch) m s = Err IndexError.
Proof.
  intros H. unfold prepare. shape_step. unfold sh_slice at 1.
  by destruct (Nat.ltb_spec (length s) 5); [|lia].
Qed.

Lemma sh_slice_rank_high (start stop : option Z) (s : shape) :
  5 < length s ->
  exists s', sh_slice 5 1 start stop s = Ok s' /\ length s' = length s.
Proof.
  intros H. unfold sh_slice.
  destruct (Nat.ltb_spec (length s) 5); [lia|].
  destruct s as [|a [|b s]]; [cbn in H; lia | cbn in H; lia |].
  change ((a :: b :: s) !! 1) with (Some b). cbv iota.
  eexists. split; [done|]. done.
Qed.

Lemma normalize_shape_rank_high (b : option BatchNorm) (s : shape) :
  5 < length s -> normalize (TT := ShapeTorch) b s = Err ValueError.
Proof.
  intros H. unfold normalize. shape_step.
  destruct s as [|? [|? [|? [|? [|? [|? ?]]]]]]; cbn in H; try lia. done.
Qed.

Lemma prepare_shape_rank_high (m : GLBGCN) (s : shape) :
  5 < length s -> prepare (TT := ShapeTorch) m s = Err ValueError.
Proof.
  intros H. unfold prepare. shape_step.
  destruct (sh_slice_rank_high (Some 0%Z) (Some (Z.of_nat (in_channel m))) H)
    as (s1 & -> & _).
  destruct (sh_slice_rank_high (Some (Z.of_nat (in_channel m))) None H)
    as (s2 & -> & H2).
  shape_step. rewrite normalize_shape_rank_high by lia. done.
Qed.

Lemma h_slice_as_shape (nidx dim : nat) (a b : option Z) (t : tensor)
    (st : store) :
  match h_slice nidx dim a b t st with
  | Ok (t', st') => sh_slice nidx dim a b (sizes t) = Ok (sizes t') /\ st' = st
  | Err e => sh_slice nidx dim a b (sizes t) = Err e
  end.
Proof.
  unfold h_slice, heap_bind, lift, heap_ret.
  by destruct (sh_slice nidx dim a b (sizes t)).
Qed.

(** [forward] indexes its input with five indices and unpacks five
    sizes: an input of fewer dimensions raises [IndexError], one of more
    dimensions [ValueError], whatever the model, on shapes and on the
    store. *)
Theorem forward_rank_errors (m : GLBGCN) :
  (forall s, length s < 5 -> forward_shape m s = Err IndexError) /\
  (forall s, 5 < length s -> forward_shape m s = Err ValueError) /\
  (forall x st, length (sizes x) < 5 -> forward_heap m x st = Err IndexError) /\
  (forall x st, 5 < length (sizes x) -> forward_heap m x st = Err ValueError).
Proof.
  split; [|split; [|split]].
  - intros s H. unfold forward_shape, forward. shape_step.
    by rewrite prepare_shape_rank_low.
  - intros s H. unfold forward_shape, forward. shape_step.
    by rewrite prepare_shape_rank_high.
  - intros x st H. unfold forward_heap, forward, prepare. heap_step.
    unfold heap_bind at 1. unfold heap_bind at 1.
    pose proof (h_slice_as_shape 5 1 (Some 0%Z)
                  (Some (Z.of_nat (in_channel m))) x st) as Hs.
    destruct (h_slice 5 1 _ _ x st) as [[t' st']|e].
    + destruct Hs as [Hs _]. unfold sh_slice in Hs.
      by destruct (Nat.ltb_spec (length (sizes x)) 5); [|lia].
    + unfold sh_slice in Hs.
      destruct (Nat.ltb_spec (length (sizes x)) 5); [|lia]. by injection Hs as <-.
  - intros x st H. unfold forward_heap, forward, prepare. heap_step.
    unfold heap_bind at 1. unfold heap_bind at 1.
    pose proof (h_slice_as_shape 5 1 (Some 0%Z)
                  (Some (Z.of_nat (in_channel m))) x st) as Hs.
    destruct (sh_slice_rank_high (Some 0%Z)
                (Some (Z.of_nat (in_channel m))) H) as (s1 & E1 & _).
    destruct (h_slice 5 1 _ _ x st) as [[t1 st1]|e]; [|congruence].
    destruct Hs as [_ ->]. unfold heap_bind at 1.
    pose proof (h_slice_as_shape 5 1 (Some (Z.of_nat (in_channel m))) None
                  x st) as Hs.
    destruct (sh_slice_rank_high (Some (Z.of_nat (in_channel m))) None H)
      as (s2 & E2 & Hlen).
    destruct (h_slice 5 1 _ None x st) as [[t2 st2]|e]; [|congruence].
    destruct Hs as [Hs ->]. rewrite E2 in Hs. injection Hs as ->.
    unfold heap_bind at 1. unfold normalize. heap_step.
    unfold heap_bind at 1, heap_ret at 1.
    destruct (sizes t2) as [|? [|? [|? [|? [|? [|? ?]]]]]]; cbn in Hlen; try lia.
    done.
Qed.

(** ** Training on a single value per channel *)



(** ** The assertion of the graph convolution cannot fail in [forward] *)

Lemma result_bind_err {X Y} (c : result X) (k : X -> result Y) (e : error) :
  result_bind c k = Err e ->
  c = Err e \/ exists a, c = Ok a /\ k a = Err e.
Proof. destruct c as [a|e']; cbn; [eauto | by intros [= ->]; left]. Qed.

Lemma broadcast_rev_err (a b : shape) (e : error) :
  broadcast_rev a b = Err e -> e = RuntimeError.
Proof.
  revert b. induction a as [|x a IH]; intros [|y b]; cbn; try done.
  destruct (x =? y); [|destruct (x =? 1); [|destruct (y =? 1)]];
    try (destruct (broadcast_rev a b) eqn:E; cbn; [done|];
         intros [= <-]; by eapply IH).
  by intros [= <-].
Qed.

Lemma sh_broadcast_err (a b : shape) (e : error) :
  sh_broadcast a b = Err e -> e = RuntimeError.
Proof.
  unfold sh_broadcast. destruct (broadcast_rev _ _) eqn:E; [done|].
  cbn. intros [= <-]. by eapply broadcast_rev_err.
Qed.

Lemma sh_batch_norm_err (b : BatchNorm) (s : shape) (e : error) :
  sh_batch_norm b s = Err e -> e <> AssertionError.
Proof. unfold sh_batch_norm. repeat case_match; by intros [= <-]. Qed.

Lemma layer_forward_shape_err (l : layer) (s : shape) (e : error) :
  layer_forward (TT := ShapeTorch) l s = Err e -> e <> AssertionError.
Proof.
  destruct l; cbn [layer_forward]; shape_step; try done.
  - intros H. by rewrite (sh_conv2d_err H).
  - apply sh_batch_norm_err.
Qed.

Lemma sequential_forward_shape_err (ls : list layer) (s : shape) (e : error) :
  sequential_forward (TT := ShapeTorch) ls s = Err e -> e <> AssertionError.
Proof.
  revert s. induction ls as [|l ls IH]; intros s; cbn [sequential_forward];
    shape_step; [done|].
  intros H. apply result_bind_err in H as [H | (a & _ & H)].
  - by eapply layer_forward_shape_err.
  - by eapply IH.
Qed.

Lemma gcn_forward_shape_err (g : ConvTemporalGraphical) (x adj : shape)
    (e : error) :
  adj !! 0 = Some (kernel_size g) ->
  gcn_forward (TT := ShapeTorch) g x adj = Err e -> e <> AssertionError.
Proof.
  intros Hk. unfold gcn_forward, size_at. shape_step. rewrite Hk. shape_step.
  rewrite Nat.eqb_refl. cbn [negb]. apply gcn_contract_shape_err.
Qed.

Lemma block_forward_shape_err (b : GLBGCNBlock) (x adj : shape) (e : error) :
  adj !! 0 = Some (kernel_size (gcn b)) ->
  block_forward (TT := ShapeTorch) b x adj = Err e -> e <> AssertionError.
Proof.
  intros Hk. unfold block_forward. shape_step. intros H.
  apply result_bind_err in H as [H | (res & _ & H)].
  { destruct (residual b); cbn [residual_forward] in H; shape_step in H;
      try done.
    apply result_bind_err in H as [H | (? & _ & H)]; [|done].
    by eapply sequential_forward_shape_err. }
  apply result_bind_err in H as [H | (xa & _ & H)];
    [by eapply gcn_forward_shape_err|].
  apply result_bind_err in H as [H | (y & _ & H)];
    [by eapply sequential_forward_shape_err|].
  apply result_bind_err in H as [H | (z & _ & H)].
  { destruct res; cbn [py_add] in H; shape_step in H; [|done].
    by rewrite (sh_broadcast_err H). }
  apply result_bind_err in H as [H | (? & _ & H)]; [|done].
  by eapply layer_forward_shape_err.
Qed.

Lemma sh_permute_err (dims : list nat) (s : shape) (e : error) :
  sh_permute dims s = Err e -> e = RuntimeError.
Proof. unfold sh_permute. case_match; [done | by intros [= <-]]. Qed.

Lemma sh_linear_err (l : Linear) (s : shape) (e : error) :
  sh_linear l s = Err e -> e = RuntimeError.
Proof. unfold sh_linear. repeat case_match; by intros [= <-]. Qed.

Lemma sh_iadd_err (a b : shape) (e : error) :
  sh_iadd a b = Err e -> e = RuntimeError.
Proof.
  unfold sh_iadd. intros H. apply result_bind_err in H as [H | (r & _ & H)].
  - by eapply sh_broadcast_err.
  - case_match; [done | by injection H as <-].
Qed.

Lemma fuse_feature_shape_err (m : GLBGCN) (clone : shape) (i : nat)
    (fc : Linear) (s : shape) (e : error) :
  fuse_feature (TT := ShapeTorch) m clone i fc s = Err e ->
  e <> AssertionError.
Proof.
  unfold fuse_feature, transform_feature, add_residue. shape_step. intros H.
  apply result_bind_err in H as [H | (x1 & _ & H)].
  { apply result_bind_err in H as [H | (x2 & _ & H)];
      [by rewrite (sh_permute_err H)|].
    apply result_bind_err in H as [H | (x3 & _ & H)];
      [by rewrite (sh_linear_err H) | by rewrite (sh_permute_err H)]. }
  destruct (i <? _); [|done].
  destruct (feature_residue m !! i) as [r|]; [|by injection H as <-].
  apply result_bind_err in H as [H | (? & _ & H)]; [|done].
  apply result_bind_err in H as [H | (x2 & _ & H)];
    [by rewrite (sh_linear_err H)|].
  apply result_bind_err in H as [H | (x3 & _ & H)];
    [by rewrite (sh_permute_err H) | by rewrite (sh_iadd_err H)].
Qed.

Lemma sh_slice_err (nidx dim : nat) (a b : option Z) (s : shape) (e : error) :
  sh_slice nidx dim a b s = Err e -> e = IndexError.
Proof. unfold sh_slice. repeat case_match; by intros [= <-]. Qed.

Lemma sh_select_last_err (dim : nat) (s : shape) (e : error) :
  sh_select_last dim s = Err e -> e = IndexError.
Proof. unfold sh_select_last. repeat case_match; by intros [= <-]. Qed.

Lemma sh_unsqueeze_err (dim : nat) (s : shape) (e : error) :
  sh_unsqueeze dim s = Err e -> e = IndexError.
Proof. unfold sh_unsqueeze. repeat case_match; by intros [= <-]. Qed.

Lemma sh_cat_err (dim : nat) (a b : shape) (e : error) :
  sh_cat dim a b = Err e -> e = RuntimeError.
Proof. unfold sh_cat. repeat case_match; by intros [= <-]. Qed.

Lemma sh_reduce_keepdim_err (ne : bool) (dim : nat) (s : shape) (e : error) :
  sh_reduce_keepdim ne dim s = Err e -> e = IndexError.
Proof. unfold sh_reduce_keepdim. repeat case_match; by intros [= <-]. Qed.

Lemma graph_step_shape_err (m : GLBGCN) (b : GLBGCNBlock) (imp : importance)
    (xp xf : shape) (e : error) :
  (forall adj, sh_mul_importance (A m) imp = Ok adj ->
     adj !! 0 = Some (kernel_size (gcn b))) ->
  (forall e', sh_mul_importance (A m) imp = Err e' -> e' <> AssertionError) ->
  graph_step (TT := ShapeTorch) m b imp xp xf = Err e -> e <> AssertionError.
Proof.
  intros Hadj Hmul. unfold graph_step. shape_step. intros H.
  apply result_bind_err in H as [H | (x & _ & H)];
    [by rewrite (sh_cat_err H)|].
  apply result_bind_err in H as [H | (adj & Ea & H)]; [by eapply Hmul|].
  apply result_bind_err in H as [H | (xa & _ & H)];
    [eapply block_forward_shape_err; [by apply Hadj | exact H]|].
  destruct (vshape (A m) !! 1); [|by injection H as <-].
  apply result_bind_err in H as [H | (x1 & _ & H)];
    [by rewrite (sh_slice_err H)|].
  apply result_bind_err in H as [H | (x2 & _ & H)];
    [by rewrite (sh_select_last_err H)|].
  apply result_bind_err in H as [H | (x3 & _ & H)]; [|done].
  by rewrite (sh_unsqueeze_err H).
Qed.

Lemma run_stages_shape_err (m : GLBGCN) (clone : shape)
    (stages : list (GLBGCNBlock * importance * Linear))
    (s : loop_state (T := shape)) (e : error) :
  Forall (fun g =>
            (forall adj, sh_mul_importance (A m) (snd (fst g)) = Ok adj ->
               adj !! 0 = Some (kernel_size (gcn (fst (fst g))))) /\
            (forall e', sh_mul_importance (A m) (snd (fst g)) = Err e' ->
               e' <> AssertionError)) stages ->
  run_stages (TT := ShapeTorch) m clone stages s = Err e ->
  e <> AssertionError.
Proof.
  intros Hst. revert s. induction Hst as [|g stages [Hg1 Hg2] _ IH]; intros s;
    cbn [run_stages]; shape_step; [done|].
  intros H. apply result_bind_err in H as [H | (s1 & _ & H)]; [|by eapply IH].
  unfold stage in H. shape_step in H.
  apply result_bind_err in H as [H | (fi & _ & H)];
    [by eapply fuse_feature_shape_err|].
  apply result_bind_err in H as [H | (r & _ & H)]; [|done].
  by eapply graph_step_shape_err.
Qed.

Lemma normalize_shape_err (b : option BatchNorm) (s : shape) (e : error) :
  normalize (TT := ShapeTorch) b s = Err e -> e <> AssertionError.
Proof.
  unfold normalize. shape_step.
  destruct s as [|n [|c [|t [|v [|p [|? ?]]]]]]; try by intros [= <-].
  intros H.
  apply result_bind_err in H as [H | (x1 & _ & H)];
    [by rewrite (sh_permute_err H)|].
  apply result_bind_err in H as [H | (x2 & _ & H)];
    [by rewrite (sh_view_err H)|].
  apply result_bind_err in H as [H | (x3 & _ & H)].
  { destruct b; cbn [maybe_batch_norm] in H; shape_step in H; [|done].
    by eapply sh_batch_norm_err. }
  apply result_bind_err in H as [H | (x4 & _ & H)];
    [by rewrite (sh_view_err H)|].
  apply result_bind_err in H as [H | (x5 & _ & H)];
    [by rewrite (sh_permute_err H)|].
  by rewrite (sh_view_err H).
Qed.

Lemma prepare_shape_err (m : GLBGCN) (s : shape) (e : error) :
  prepare (TT := ShapeTorch) m s = Err e -> e <> AssertionError.
Proof.
  unfold prepare. shape_step. intros H.
  apply result_bind_err in H as [H | (x1 & _ & H)];
    [by rewrite (sh_slice_err H)|].
  apply result_bind_err in H as [H | (x2 & _ & H)];
    [by rewrite (sh_slice_err H)|].
  apply result_bind_err in H as [H | (x3 & _ & H)];
    [by eapply normalize_shape_err|].
  apply result_bind_err in H as [H | (x4 & _ & H)].
  { unfold reduce_nodes in H. shape_step in H.
    destruct (String.eqb _ _); by rewrite (sh_reduce_keepdim_err H). }
  apply result_bind_err in H as [H | (x5 & _ & H)];
    [by rewrite (sh_permute_err H)|].
  apply result_bind_err in H as [H | (x6 & _ & H)]; [|done].
  by eapply normalize_shape_err.
Qed.

Lemma stages_kernel_fits (cfg : config) (m : GLBGCN) (mode : bool) :
  GLBGCN_init cfg = Ok m ->
  Forall (fun g =>
            (forall adj,
               sh_mul_importance (A (GLBGCN_train mode m)) (snd (fst g))
               = Ok adj ->
               adj !! 0 = Some (kernel_size (gcn (fst (fst g))))) /\
            (forall e',
               sh_mul_importance (A (GLBGCN_train mode m)) (snd (fst g))
               = Err e' ->
               e' <> AssertionError)) (stages_of (GLBGCN_train mode m)).
Proof.
  intros Hm.
  destruct (GLBGCN_init_inv Hm)
    as (K & b0 & b1 & b2 & b3 & b4 & b5 & b6 & b7 & b8 & b9 & Hred & HK
        & Hbn & Hbnf & H0 & H1 & H2 & H3 & H4 & H5 & H6 & H7 & H8 & H9
        & HA & Hc & Hr & Hpre & Hblocks & Hfc & Hres & Himp & Hpl).
  rewrite stages_of_train, Hblocks, Himp, Hfc.
  cbn [map replicate zip zip_with A GLBGCN_train]. rewrite HA.
  rewrite GLBGCNBlock_init_k9 in H0, H1, H2, H3, H4, H5, H6, H7, H8, H9.
  injection H0 as <-. injection H1 as <-. injection H2 as <-.
  injection H3 as <-. injection H4 as <-. injection H5 as <-.
  injection H6 as <-. injection H7 as <-. injection H8 as <-.
  injection H9 as <-.
  repeat constructor; cbn [fst snd gcn block_train kernel_size
                             ConvTemporalGraphical_init];
    rewrite sh_mul_importance_init; congruence.
Qed.

Lemma forward_shape_no_assertion (cfg : config) (m : GLBGCN) (mode : bool)
    (s : shape) :
  GLBGCN_init cfg = Ok m ->
  forward_shape (GLBGCN_train mode m) s <> Err AssertionError.
Proof.
  intros Hm H. unfold forward_shape, forward in H. shape_step in H.
  apply result_bind_err in H as [H | (p & _ & H)];
    [by eapply prepare_shape_err|].
  apply result_bind_err in H as [H | (s1 & _ & H)]; [|done].
  eapply run_stages_shape_err; [|exact H|done].
  by eapply stages_kernel_fits.
Qed.

(** * The store reading refines the shape reading *)

Lemma fits_mono (k k' : nat) (t : tensor) (s : shape) :
  fits k t s -> k <= k' -> fits k' t s.
Proof. intros [? ?] ?. split; [done | lia]. Qed.

Lemma refines_ret {X Y} (n : nat) (x : X) (y : Y)
    (post : nat -> X -> Y -> Prop) :
  (forall k, n <= k -> post k x y) -> refines n (heap_ret x) (Ok y) post.
Proof. intros H st Hn. cbn. split; [done|]. exists y. auto. Qed.

Lemma refines_raise {X Y} (n : nat) (e : error)
    (post : nat -> X -> Y -> Prop) :
  refines n (heap_raise e) (Err e) post.
Proof. by intros st Hn. Qed.

Lemma refines_bind {X Y X' Y'} (n : nat) (c : heapM X) (r : result Y)
    (f : X -> heapM X') (g : Y -> result Y')
    (post : nat -> X -> Y -> Prop) (post' : nat -> X' -> Y' -> Prop) :
  refines n c r post ->
  (forall x y k, n <= k -> post k x y -> refines k (f x) (g y) post') ->
  refines n (heap_bind c f) (result_bind r g) post'.
Proof.
  intros Hc Hf st Hn. unfold heap_bind. specialize (Hc st Hn).
  destruct (c st) as [[x st1]|e]; [|by rewrite Hc].
  destruct Hc as (Hlen & y & -> & Hp). cbn [result_bind].
  assert (Hn1 : n <= length st1) by lia.
  specialize (Hf x y (length st1) Hn1 Hp st1 (Nat.le_refl _)).
  destruct (f x st1) as [[x' st2]|e]; [|done].
  destruct Hf as (Hlen' & y' & E & Hp'). split; [lia|]. by exists y'.
Qed.

(** The same when the shape reading of the first step is a value. *)
Lemma refines_bind_pure {X Y X' Y'} (n : nat) (c : heapM X) (y : Y)
    (f : X -> heapM X') (r' : result Y')
    (post : nat -> X -> Y -> Prop) (post' : nat -> X' -> Y' -> Prop) :
  refines n c (Ok y) post ->
  (forall x k, n <= k -> post k x y -> refines k (f x) r' post') ->
  refines n (heap_bind c f) r' post'.
Proof.
  intros Hc Hf st Hn. unfold heap_bind. specialize (Hc st Hn).
  destruct (c st) as [[x st1]|e]; [|done].
  destruct Hc as (Hlen & y0 & [= <-] & Hp).
  assert (Hn1 : n <= length st1) by lia.
  specialize (Hf x (length st1) Hn1 Hp st1 (Nat.le_refl _)).
  destruct (f x st1) as [[x' st2]|e]; [|done].
  destruct Hf as (Hlen' & y' & E & Hp'). split; [lia|]. by exists y'.
Qed.

Lemma refines_weaken {X Y} (n : nat) (c : heapM X) (r : result Y)
    (post post' : nat -> X -> Y -> Prop) :
  refines n c r post ->
  (forall k x y, n <= k -> post k x y -> post' k x y) ->
  refines n c r post'.
Proof.
  intros Hc Hw st Hn. specialize (Hc st Hn).
  destruct (c st) as [[x st1]|e]; [|done].
  destruct Hc as (Hlen & y & -> & Hp). split; [done|]. exists y.
  split; [done|]. apply Hw; [lia | done].
Qed.

(** An operation that checks the shape and then builds its result. *)
Lemma refines_checked (n : nat) (r : result shape) (k : shape -> heapM tensor)
    (post : nat -> tensor -> shape -> Prop) :
  (forall s', r = Ok s' -> refines n (k s') (Ok s') post) ->
  refines n (heap_bind (lift r) k) r post.
Proof.
  intros Hk st Hn. unfold heap_bind, lift. destruct r as [s'|e]; [|done].
  by apply Hk.
Qed.

Lemma refines_alloc (n : nat) (s : shape) (f : store -> list nat -> R) :
  refines n (fun st => alloc s (f st) st) (Ok s) fits_contiguous.
Proof.
  intros st Hn. unfold alloc. rewrite length_app. cbn. split; [lia|].
  exists s. split; [done|]. split; [split; cbn; [done | lia]|].
  by apply is_contiguous_fresh.
Qed.

Lemma refines_update (n : nat) (t : tensor) (s : shape)
    (f : store -> list nat -> R) :
  fits n t s -> refines n (fun st => update t (f st) st) (Ok s) fits.
Proof.
  intros [Hs Hl] st Hn. unfold update.
  destruct (st !! loc t) as [d|] eqn:E.
  - rewrite length_insert. split; [done|]. exists s. split; [done|].
    split; [done | lia].
  - apply lookup_ge_None in E. lia.
Qed.

Lemma fits_contiguous_fits (k : nat) (t : tensor) (s : shape) :
  fits_contiguous k t s -> fits k t s.
Proof. by intros [? _]. Qed.

(** *** The operations *)

Lemma refines_slice (n nidx dim : nat) (a b : option Z) (t : tensor)
    (s : shape) :
  fits n t s -> refines n (h_slice nidx dim a b t) (sh_slice nidx dim a b s) fits.
Proof.
  intros [<- Hl]. unfold h_slice. apply refines_checked. intros s' _.
  apply refines_ret. intros k Hk. split; cbn; [done | lia].
Qed.

Lemma refines_select_last (n dim : nat) (t : tensor) (s : shape) :
  fits n t s -> refines n (h_select_last dim t) (sh_select_last dim s) fits.
Proof.
  intros [<- Hl]. unfold h_select_last. apply refines_checked. intros s' _.
  apply refines_ret. intros k Hk. split; cbn; [done | lia].
Qed.

Lemma refines_unsqueeze (n dim : nat) (t : tensor) (s : shape) :
  fits n t s -> refines n (h_unsqueeze dim t) (sh_unsqueeze dim s) fits.
Proof.
  intros [<- Hl]. unfold h_unsqueeze. apply refines_checked. intros s' _.
  apply refines_ret. intros k Hk. split; cbn; [done | lia].
Qed.

Lemma refines_permute (n : nat) (dims : list nat) (t : tensor) (s : shape) :
  fits n t s -> refines n (h_permute dims t) (sh_permute dims s) fits.
Proof.
  intros [<- Hl]. unfold h_permute. apply refines_checked. intros s' _.
  apply refines_ret. intros k Hk. split; cbn; [done | lia].
Qed.

Lemma refines_contiguous (n : nat) (t : tensor) (s : shape) :
  fits n t s -> refines n (h_contiguous t) (Ok s) fits_contiguous.
Proof.
  intros [<- Hl]. unfold h_contiguous.
  destruct (is_contiguous t) eqn:E.
  - apply refines_ret. intros k Hk. split; [split; [done | lia] | done].
  - apply refines_alloc.
Qed.

Lemma refines_view (n : nat) (new : shape) (t : tensor) (s : shape) :
  fits_contiguous n t s ->
  refines n (h_view new t) (sh_view new s) fits_contiguous.
Proof.
  intros [[<- Hl] Hc]. unfold h_view. apply refines_checked. intros s' _.
  rewrite Hc. apply refines_ret. intros k Hk.
  split; [split; cbn; [done | lia] | by apply is_contiguous_fresh].
Qed.

Lemma refines_reduce (n : nat) (f : list R -> R) (ne : bool) (dim : nat)
    (t : tensor) (s : shape) :
  fits n t s ->
  refines n (h_reduce f ne dim t) (sh_reduce_keepdim ne dim s) fits.
Proof.
  intros [<- Hl]. unfold h_reduce. apply refines_checked. intros s' _.
  eapply refines_weaken; [apply refines_alloc with (f := fun st idx => _)|].
  intros k x y _. apply fits_contiguous_fits.
Qed.

Lemma refines_cat (n dim : nat) (a b : tensor) (sa sb : shape) :
  fits n a sa -> fits n b sb ->
  refines n (h_cat dim a b) (sh_cat dim sa sb) fits.
Proof.
  intros [<- _] [<- _]. unfold h_cat. apply refines_checked. intros s' _.
  eapply refines_weaken; [apply refines_alloc with (f := fun st idx => _)|].
  intros k x y _. apply fits_contiguous_fits.
Qed.

Lemma refines_add (n : nat) (a b : tensor) (sa sb : shape) :
  fits n a sa -> fits n b sb ->
  refines n (h_add a b) (sh_broadcast sa sb) fits.
Proof.
  intros [<- _] [<- _]. unfold h_add. apply refines_checked. intros s' _.
  eapply refines_weaken; [apply refines_alloc with (f := fun st idx => _)|].
  intros k x y _. apply fits_contiguous_fits.
Qed.

Lemma refines_add_int (n : nat) (a : tensor) (z : Z) (sa : shape) :
  fits n a sa -> refines n (h_add_int a z) (Ok sa) fits.
Proof.
  intros [<- _]. unfold h_add_int.
  eapply refines_weaken; [apply refines_alloc with (f := fun st idx => _)|].
  intros k x y _. apply fits_contiguous_fits.
Qed.

Lemma refines_iadd (n : nat) (a b : tensor) (sa sb : shape) :
  fits n a sa -> fits n b sb ->
  refines n (h_iadd a b) (sh_iadd sa sb) fits.
Proof.
  intros Ha [<- _]. pose proof Ha as [<- _]. unfold h_iadd.
  intros st Hn. unfold heap_bind, lift.
  destruct (sh_iadd (sizes a) (sizes b)) as [s'|e] eqn:E; [|done].
  apply sh_iadd_inv in E as ->.
  by apply (@refines_update n a (sizes a) (fun st idx => _) Ha st Hn).
Qed.

Lemma refines_mul_importance (n : nat) (a : value) (imp : importance) :
  refines n (h_mul_importance a imp) (sh_mul_importance a imp) fits.
Proof.
  unfold h_mul_importance. apply refines_checked. intros s' _.
  eapply refines_weaken; [apply refines_alloc with (f := fun st idx => _)|].
  intros k x y _. apply fits_contiguous_fits.
Qed.

Lemma refines_einsum (n : nat) (x a : tensor) (sx sa : shape) :
  fits n x sx -> fits n a sa ->
  refines n (h_einsum x a) (sh_einsum sx sa) fits.
Proof.
  intros [<- _] [<- _]. unfold h_einsum. apply refines_checked. intros s' _.
  eapply refines_weaken; [apply refines_alloc with (f := fun st idx => _)|].
  intros k x0 y _. apply fits_contiguous_fits.
Qed.

Lemma refines_batch_norm (n : nat) (b : BatchNorm) (t : tensor) (s : shape) :
  fits n t s ->
  refines n (h_batch_norm b t) (sh_batch_norm b s) fits_contiguous.
Proof.
  intros [<- _]. unfold h_batch_norm. apply refines_checked. intros s' _.
  apply refines_alloc with (f := fun st idx => _).
Qed.

Lemma refines_linear (n : nat) (l : Linear) (t : tensor) (s : shape) :
  fits n t s -> refines n (h_linear l t) (sh_linear l s) fits.
Proof.
  intros [<- _]. unfold h_linear. apply refines_checked. intros s' _.
  eapply refines_weaken; [apply refines_alloc with (f := fun st idx => _)|].
  intros k x y _. apply fits_contiguous_fits.
Qed.

Lemma refines_conv2d (n : nat) (c : Conv2d) (t : tensor) (s : shape) :
  fits n t s ->
  refines n (h_conv2d c t) (sh_conv2d c s) fits_contiguous.
Proof.
  intros [<- _]. unfold h_conv2d. apply refines_checked. intros s' _.
  apply refines_alloc with (f := fun st idx => _).
Qed.

Lemma refines_relu (n : nat) (inplace : bool) (t : tensor) (s : shape) :
  fits n t s -> refines n (h_relu inplace t) (Ok s) fits.
Proof.
  intros Ht. unfold h_relu. destruct inplace.
  - by apply (@refines_update n t s (fun st idx => _)).
  - destruct Ht as [<- _].
    eapply refines_weaken; [apply refines_alloc with (f := fun st idx => _)|].
    intros k x y _. apply fits_contiguous_fits.
Qed.

Lemma refines_dropout (n : nat) (d : Dropout) (t : tensor) (s : shape) :
  fits n t s -> refines n (h_dropout d t) (Ok s) fits.
Proof.
  intros Ht. unfold h_dropout. destruct (drop_inplace d).
  - by apply (@refines_update n t s (fun st => _)).
  - destruct Ht as [<- _].
    eapply refines_weaken; [apply refines_alloc with (f := fun st => _)|].
    intros k x y _. apply fits_contiguous_fits.
Qed.

(** *** The network *)

Lemma refines_layer (n : nat) (l : layer) (x : tensor) (s : shape) :
  fits n x s ->
  refines n (layer_forward (TT := HeapTorch) l x)
    (layer_forward (TT := ShapeTorch) l s) fits.
Proof.
  intros Hx. destruct l; cbn [layer_forward]; heap_step; shape_step.
  - eapply refines_weaken; [by apply refines_conv2d|].
    intros k t y _. apply fits_contiguous_fits.
  - eapply refines_weaken; [by apply refines_batch_norm|].
    intros k t y _. apply fits_contiguous_fits.
  - by apply refines_relu.
  - by apply refines_dropout.
Qed.

Lemma refines_sequential (n : nat) (ls : list layer) (x : tensor) (s : shape) :
  fits n x s ->
  refines n (sequential_forward (TT := HeapTorch) ls x)
    (sequential_forward (TT := ShapeTorch) ls s) fits.
Proof.
  revert n x s. induction ls as [|l ls IH]; intros n x s Hx;
    cbn [sequential_forward]; heap_step; shape_step.
  - apply refines_ret. intros k Hk. by eapply fits_mono.
  - eapply refines_bind; [by apply refines_layer|].
    intros x1 s1 k Hk H1. by apply IH.
Qed.

Lemma refines_residual (n : nat) (r : residual_fn) (x : tensor) (s : shape) :
  fits n x s ->
  refines n (residual_forward (TT := HeapTorch) r x)
    (residual_forward (TT := ShapeTorch) r s) fits_res.
Proof.
  intros Hx. destruct r; cbn [residual_forward]; heap_step; shape_step.
  - by apply refines_ret.
  - apply refines_ret. intros k Hk. cbn. by eapply fits_mono.
  - eapply refines_bind; [by apply refines_sequential|].
    intros x1 s1 k Hk H1. apply refines_ret. intros k' Hk'. cbn.
    by eapply fits_mono.
Qed.

Lemma refines_py_add (n : nat) (y : tensor) (sy : shape)
    (r : pyres (T := tensor)) (r' : pyres (T := shape)) :
  fits n y sy -> fits_res n r r' ->
  refines n (py_add (TT := HeapTorch) y r) (py_add (TT := ShapeTorch) sy r')
    fits.
Proof.
  intros Hy Hr. destruct r as [t|z], r' as [s|z']; cbn in Hr; try done;
    cbn [py_add]; heap_step; shape_step.
  - by apply refines_add.
  - by apply refines_add_int.
Qed.

Lemma refines_gcn_contract (n : nat) (g : ConvTemporalGraphical)
    (x adj : tensor) (sx sa : shape) :
  fits n x sx -> fits n adj sa ->
  refines n (gcn_contract (TT := HeapTorch) g x adj)
    (gcn_contract (TT := ShapeTorch) g sx sa)
    (fun k r r' => fits k (fst r) (fst r') /\ fits k (snd r) (snd r')
                   /\ snd r = adj).
Proof.
  intros Hx Ha. unfold gcn_contract. heap_step. shape_step.
  eapply refines_bind; [by apply refines_conv2d|].
  intros x1 s1 k Hk H1. pose proof H1 as [[E1 _] _]. rewrite E1.
  destruct s1 as [|a [|kc [|t [|v [|? ?]]]]]; try apply refines_raise.
  destruct (_ =? 0); [apply refines_raise|].
  eapply refines_bind; [by apply refines_view|].
  intros x2 s2 k2 Hk2 H2.
  eapply refines_bind;
    [apply refines_einsum;
       [by apply fits_contiguous_fits | eapply fits_mono; [exact Ha | lia]]|].
  intros x3 s3 k3 Hk3 H3.
  eapply refines_bind_pure; [by apply refines_contiguous|].
  intros x4 k4 Hk4 H4. apply refines_ret. intros k5 Hk5. cbn [fst snd].
  split; [eapply fits_mono; [by apply fits_contiguous_fits | done]|].
  split; [|done]. eapply fits_mono; [exact Ha | lia].
Qed.

Lemma refines_gcn_forward (n : nat) (g : ConvTemporalGraphical)
    (x adj : tensor) (sx sa : shape) :
  fits n x sx -> fits n adj sa ->
  refines n (gcn_forward (TT := HeapTorch) g x adj)
    (gcn_forward (TT := ShapeTorch) g sx sa)
    (fun k r r' => fits k (fst r) (fst r') /\ fits k (snd r) (snd r')
                   /\ snd r = adj).
Proof.
  intros Hx Ha. unfold gcn_forward, size_at. heap_step. shape_step.
  pose proof Ha as [E _]. rewrite E.
  destruct (sa !! 0) as [k0|]; heap_step; shape_step.
  - eapply refines_bind_pure with (y := k0) (post := fun _ a b => a = b);
      [by apply refines_ret|].
    intros k1 k Hk ->. destruct (negb _); [apply refines_raise|].
    apply refines_gcn_contract; by eapply fits_mono.
  - by intros st Hn.
Qed.

Lemma refines_block_forward (n : nat) (b : GLBGCNBlock) (x adj : tensor)
    (sx sa : shape) :
  fits n x sx -> fits n adj sa ->
  refines n (block_forward (TT := HeapTorch) b x adj)
    (block_forward (TT := ShapeTorch) b sx sa)
    (fun k r r' => fits k (fst r) (fst r') /\ fits k (snd r) (snd r')).
Proof.
  intros Hx Ha. unfold block_forward. heap_step. shape_step.
  eapply refines_bind; [by apply refines_residual|].
  intros res res' k Hk Hres.
  eapply refines_bind;
    [apply refines_gcn_forward; eapply fits_mono; eauto|].
  intros xa xa' k1 Hk1 (H1 & H2 & _).
  eapply refines_bind; [by apply refines_sequential|].
  intros y y' k2 Hk2 Hy.
  eapply refines_bind.
  { apply refines_py_add; [done|].
    destruct res, res'; cbn in *; try done. eapply fits_mono; [eauto | lia]. }
  intros z z' k3 Hk3 Hz.
  eapply refines_bind; [by apply refines_layer|].
  intros u u' k4 Hk4 Hu. apply refines_ret. intros k5 Hk5. cbn [fst snd].
  split; eapply fits_mono; eauto; lia.
Qed.

Lemma refines_transform_feature (n : nat) (fc : Linear) (x : tensor)
    (s : shape) :
  fits n x s ->
  refines n (transform_feature (TT := HeapTorch) fc x)
    (transform_feature (TT := ShapeTorch) fc s) fits.
Proof.
  intros Hx. unfold transform_feature. heap_step. shape_step.
  eapply refines_bind; [by apply refines_permute|]. intros x1 s1 k Hk H1.
  eapply refines_bind; [by apply refines_linear|]. intros x2 s2 k2 Hk2 H2.
  by apply refines_permute.
Qed.

Lemma refines_add_residue (n : nat) (r : Linear) (clone x : tensor)
    (sc s : shape) :
  fits n clone sc -> fits n x s ->
  refines n (add_residue (TT := HeapTorch) r clone x)
    (add_residue (TT := ShapeTorch) r sc s) fits.
Proof.
  intros Hc Hx. unfold add_residue. heap_step. shape_step.
  eapply refines_bind; [by apply refines_linear|]. intros x1 s1 k Hk H1.
  eapply refines_bind; [by apply refines_permute|]. intros x2 s2 k2 Hk2 H2.
  apply refines_iadd; [|done]. eapply fits_mono; [exact Hx | lia].
Qed.

Lemma refines_fuse_feature (n : nat) (m : GLBGCN) (clone : tensor) (i : nat)
    (fc : Linear) (x : tensor) (sc s : shape) :
  fits n clone sc -> fits n x s ->
  refines n (fuse_feature (TT := HeapTorch) m clone i fc x)
    (fuse_feature (TT := ShapeTorch) m sc i fc s)
    (fun k r r' => fits k (fst r) (fst r') /\ snd r = snd r').
Proof.
  intros Hc Hx. unfold fuse_feature. heap_step. shape_step.
  eapply refines_bind; [by apply refines_transform_feature|].
  intros x1 s1 k Hk H1.
  destruct (i <? _).
  - destruct (feature_residue m !! i) as [r|]; [|apply refines_raise].
    eapply refines_bind;
      [apply refines_add_residue; [eapply fits_mono; eauto | done]|].
    intros x2 s2 k2 Hk2 H2. apply refines_ret. intros k3 Hk3. cbn [fst snd].
    split; [by eapply fits_mono | done].
  - apply refines_ret. intros k3 Hk3. cbn [fst snd].
    split; [by eapply fits_mono | done].
Qed.

Lemma refines_graph_step (n : nat) (m : GLBGCN) (b : GLBGCNBlock)
    (imp : importance) (xp xf : tensor) (sp sf : shape) :
  fits n xp sp -> fits n xf sf ->
  refines n (graph_step (TT := HeapTorch) m b imp xp xf)
    (graph_step (TT := ShapeTorch) m b imp sp sf)
    (fun k r r' => fits k (fst (fst r)) (fst (fst r')) /\
                   fits k (snd (fst r)) (snd (fst r')) /\
                   fits k (snd r) (snd r')).
Proof.
  intros Hp Hf. unfold graph_step. heap_step. shape_step.
  eapply refines_bind; [by apply refines_cat|]. intros x s k Hk Hx.
  eapply refines_bind; [apply refines_mul_importance|].
  intros adj sa k1 Hk1 Ha.
  eapply refines_bind;
    [apply refines_block_forward; [eapply fits_mono; eauto | done]|].
  intros xa xa' k2 Hk2 [H1 H2].
  destruct (vshape (A m) !! 1); [|apply refines_raise].
  eapply refines_bind; [by apply refines_slice|]. intros y1 s1 k3 Hk3 Hy1.
  eapply refines_bind;
    [apply refines_select_last; eapply fits_mono; eauto|].
  intros y2 s2 k4 Hk4 Hy2.
  eapply refines_bind; [by apply refines_unsqueeze|].
  intros y3 s3 k5 Hk5 Hy3. apply refines_ret. intros k6 Hk6. cbn [fst snd].
  split; [eapply fits_mono; [exact H1 | lia]|].
  split; eapply fits_mono; eauto; lia.
Qed.

Lemma fits_state_mono (k k' : nat) (s : loop_state (T := tensor))
    (s' : loop_state (T := shape)) :
  fits_state k s s' -> k <= k' -> fits_state k' s s'.
Proof.
  intros (Hi & H1 & H2 & H3) Hk. split; [done|].
  split; [|split]; by eapply fits_mono.
Qed.

Lemma refines_stage (n : nat) (m : GLBGCN) (clone : tensor) (sc : shape)
    (g : GLBGCNBlock * importance * Linear) (s : loop_state (T := tensor))
    (s' : loop_state (T := shape)) :
  fits n clone sc -> fits_state n s s' ->
  refines n (stage (TT := HeapTorch) m clone g s)
    (stage (TT := ShapeTorch) m sc g s') fits_state.
Proof.
  intros Hc (Hi & H1 & H2 & H3). unfold stage. heap_step. shape_step.
  rewrite Hi.
  eapply refines_bind; [by apply refines_fuse_feature|].
  intros fi fi' k Hk [Hf Hsnd].
  eapply refines_bind;
    [apply refines_graph_step; [eapply fits_mono; eauto | done]|].
  intros r r' k1 Hk1 (Hr1 & Hr2 & Hr3). apply refines_ret. intros k2 Hk2.
  split; [done|]. cbn [ls_x ls_x_pos ls_x_feature].
  split; [|split]; by eapply fits_mono.
Qed.

Lemma refines_run_stages (n : nat) (m : GLBGCN) (clone : tensor) (sc : shape)
    (stages : list (GLBGCNBlock * importance * Linear))
    (s : loop_state (T := tensor)) (s' : loop_state (T := shape)) :
  fits n clone sc -> fits_state n s s' ->
  refines n (run_stages (TT := HeapTorch) m clone stages s)
    (run_stages (TT := ShapeTorch) m sc stages s') fits_state.
Proof.
  revert n s s'. induction stages as [|g stages IH]; intros n s s' Hc Hs;
    cbn [run_stages]; heap_step; shape_step.
  - apply refines_ret. intros k Hk. by eapply fits_state_mono.
  - eapply refines_bind; [by apply refines_stage|].
    intros s1 s1' k Hk H1. apply IH; [by eapply fits_mono | done].
Qed.

Lemma refines_normalize (n : nat) (b : option BatchNorm) (x : tensor)
    (s : shape) :
  fits n x s ->
  refines n (normalize (TT := HeapTorch) b x)
    (normalize (TT := ShapeTorch) b s) fits.
Proof.
  intros Hx. unfold normalize. heap_step. shape_step.
  eapply refines_bind_pure
    with (y := s) (post := fun k t y => t = x /\ fits k x s).
  { apply refines_ret. intros k Hk. split; [done | by eapply fits_mono]. }
  intros x0 k0 Hk0 [-> Hx0]. pose proof Hx as [E _]. rewrite E.
  destruct s as [|a [|c [|t [|v [|p [|? ?]]]]]]; try apply refines_raise.
  eapply refines_bind; [by apply refines_permute|]. intros x1 s1 k1 Hk1 H1.
  eapply refines_bind_pure; [by apply refines_contiguous|].
  intros x2 k2 Hk2 H2.
  eapply refines_bind; [by apply refines_view|]. intros x3 s3 k3 Hk3 H3.
  eapply refines_bind with (post := fits_contiguous).
  { destruct b as [bn|]; cbn [maybe_batch_norm]; heap_step; shape_step.
    - apply refines_batch_norm. by apply fits_contiguous_fits.
    - apply refines_ret. intros k Hk. destruct H3 as [H3 Hc3].
      split; [by eapply fits_mono | done]. }
  intros x4 s4 k4 Hk4 H4.
  eapply refines_bind; [by apply refines_view|]. intros x5 s5 k5 Hk5 H5.
  eapply refines_bind;
    [apply refines_permute; by apply fits_contiguous_fits|].
  intros x6 s6 k6 Hk6 H6.
  eapply refines_bind_pure; [by apply refines_contiguous|].
  intros x7 k7 Hk7 H7.
  eapply refines_weaken; [by apply refines_view|].
  intros ? ? ? _. apply fits_contiguous_fits.
Qed.

Lemma refines_prepare (n : nat) (m : GLBGCN) (x : tensor) (s : shape) :
  fits n x s ->
  refines n (prepare (TT := HeapTorch) m x) (prepare (TT := ShapeTorch) m s)
    (fun k r r' => fits k (fst r) (fst r') /\ fits_state k (snd r) (snd r')).
Proof.
  intros Hx. unfold prepare. heap_step. shape_step.
  eapply refines_bind; [by apply refines_slice|]. intros xp sp k1 Hk1 Hp.
  eapply refines_bind; [apply refines_slice; by eapply fits_mono|].
  intros xf sf k2 Hk2 Hf.
  eapply refines_bind; [by apply refines_normalize|]. intros xn sn k3 Hk3 Hn.
  eapply refines_bind.
  { unfold reduce_nodes. heap_step. shape_step.
    destruct (String.eqb _ _); by apply refines_reduce. }
  intros xr sr k4 Hk4 Hr.
  eapply refines_bind; [by apply refines_permute|]. intros xc sc k5 Hk5 Hc.
  eapply refines_bind;
    [apply refines_normalize; eapply fits_mono; [exact Hp | lia]|].
  intros xq sq k6 Hk6 Hq. apply refines_ret. intros k7 Hk7. cbn [fst snd].
  split; [eapply fits_mono; [exact Hc | lia]|]. split; [done|].
  cbn [ls_x ls_x_pos ls_x_feature].
  split; [eapply fits_mono; [exact Hx | lia]|].
  split; [eapply fits_mono; [exact Hq | lia]|].
  eapply fits_mono; [exact Hr | lia].
Qed.

Lemma refines_forward (n : nat) (m : GLBGCN) (x : tensor) (s : shape) :
  fits n x s ->
  refines n (forward (TT := HeapTorch) m x) (forward (TT := ShapeTorch) m s)
    fits.
Proof.
  intros Hx. unfold forward. heap_step. shape_step.
  eapply refines_bind; [by apply refines_prepare|].
  intros p p' k Hk [Hc Hs].
  eapply refines_bind; [by apply refines_run_stages|].
  intros s1 s1' k1 Hk1 (_ & H1 & _). apply refines_ret.
  intros k2 Hk2. by eapply fits_mono.
Qed.

(** * [forward] on the store *)






Lemma forward_heap_as_shape (m : GLBGCN) (x : tensor) (st : store) :
  valid st x ->
  match forward_heap m x st with
  | Ok (y, st') =>
      forward_shape m (sizes x) = Ok (sizes y) /\ valid st' y /\
      length st <= length st'
  | Err e => forward_shape m (sizes x) = Err e
  end.
Proof.
  intros Hv. unfold forward_heap, forward_shape.
  assert (Hx : fits (length st) x (sizes x)) by by split.
  pose proof (refines_forward m Hx (Nat.le_refl _)) as H.
  destruct (forward (TT := HeapTorch) m x st) as [[y st']|e]; [|done].
  destruct H as (Hlen & s' & E & [Hs Hl]). rewrite E, Hs. done.
Qed.

(** Whatever the model, [forward] run on a tensor of the store raises
    exactly the exception that the shape computation raises on the sizes
    of that tensor, and otherwise returns a tensor of the store whose
    sizes are the computed shape. *)
Theorem forward_heap_refines_shape (m : GLBGCN) (x : tensor) (st : store) :
  valid st x ->
  (forall e, forward_heap m x st = Err e
             <-> forward_shape m (sizes x) = Err e) /\
  (forall s, forward_shape m (sizes x) = Ok s
             <-> exists y st', forward_heap m x st = Ok (y, st')
                               /\ sizes y = s) /\
  (forall y st', forward_heap m x st = Ok (y, st') ->
     valid st' y /\ length st <= length st').
Proof.
  intros Hv. pose proof (forward_heap_as_shape m Hv) as H.
  destruct (forward_heap m x st) as [[y st']|e].
  - destruct H as (E & Hy & Hl). rewrite E. split; [|split].
    + intros e. split; intros ?; done.
    + intros s. split.
      * intros [= <-]. by exists y, st'.
      * intros (y' & st'' & [= <- <-] & <-). done.
    + intros y' st'' [= <- <-]. done.
  - rewrite H. split; [|split].
    + intros e'. split; intros [= <-]; done.
    + intros s. split; [done|]. by intros (y' & st'' & ? & _).
    + done.
Qed.

(** For a model that the constructor has built, the assertion of the
    graph convolution never fails inside [forward]: the adjacency it is
    given is the buffer [A] times an importance of the same shape, whose
    first dimension is the kernel size the blocks were built with. *)
Theorem forward_never_assertion (cfg : config) (m : GLBGCN) (mode : bool) :
  GLBGCN_init cfg = Ok m ->
  (forall s, forward_shape (GLBGCN_train mode m) s <> Err AssertionError) /\
  (forall x st, valid st x ->
     forward_heap (GLBGCN_train mode m) x st <> Err AssertionError).
Proof.
  intros Hm. split.
  - intros s. by eapply forward_shape_no_assertion.
  - intros x st Hv H.
    pose proof (forward_heap_as_shape (GLBGCN_train mode m) Hv) as Hs.
    rewrite H in Hs. by eapply forward_shape_no_assertion.
Qed.


(** * The reshaping around the input normalisation *)



















(** * What the loop of [forward] starts from *)






End Network.

(** * The theorems at small instances *)

(** Elements in [Z], layers without weights, kernels that return 0. *)

Abbreviation HeapZ :=
  (HeapTorch (W := unit) (fun z : Z => z) Z.add Z.mul (Z.max 0)
     (fun _ => 0%Z) (fun _ => 0%Z) (const_kernel 0%Z) (const_kernel 0%Z)
     (const_kernel 0%Z) (const_kernel 0%Z)).

Abbreviation forward_Z :=
  (forward_heap (W := unit) (fun z : Z => z) Z.add Z.mul (Z.max 0)
     (fun _ => 0%Z) (fun _ => 0%Z) (const_kernel 0%Z) (const_kernel 0%Z)
     (const_kernel 0%Z) (const_kernel 0%Z)).

Abbreviation ones_cfg_Z c va weighting bn :=
  (ones_cfg (fun z : Z => z) c va weighting bn tt).




Lemma edge_importance_off_equals_all_ones_witness :
  exists m_off m_on,
    GLBGCN_init (fun z => z) (ones_cfg_Z 1 2 false true) = Ok m_off /\
    GLBGCN_init (fun z => z) (ones_cfg_Z 1 2 true true) = Ok m_on /\
    forall x st,
      forward_Z (GLBGCN_train true m_off) x st
      = forward_Z (GLBGCN_train true m_on) x st.
Proof.
  eassert (Hoff : GLBGCN_init (fun z => z) (ones_cfg_Z 1 2 false true) = Ok _)
    by (vm_compute; reflexivity).
  eassert (Hon : GLBGCN_init (fun z => z) (ones_cfg_Z 1 2 true true) = Ok _)
    by (vm_compute; reflexivity).
  eexists _, _. split; [exact Hoff|]. split; [exact Hon|].
  exact (proj1 (proj2 (proj2
    (edge_importance_off_equals_all_ones Z.add Z.mul (Z.max 0)
       (fun _ => 0%Z) (fun _ => 0%Z) (const_kernel 0%Z) (const_kernel 0%Z) (const_kernel 0%Z)
       (const_kernel 0%Z) (cfg := ones_cfg_Z 1 2 true true) true Hoff Hon)))).
Defined.


Lemma feature_clone_never_modified_witness :
  exists m clone s st0,
    GLBGCN_init (fun z => z) (ones_cfg_Z 1 2 true true) = Ok m /\
    prepare (TT := HeapZ) (GLBGCN_train false m) (dense 0 [1; 33; 1; 1; 1])
      [replicate 33 5%Z] = Ok ((clone, s), st0) /\
    valid st0 clone /\
    forall j s' st',
      run_stages (TT := HeapZ) (GLBGCN_train false m) clone
        (take j (stages_of (GLBGCN_train false m))) s st0 = Ok (s', st') ->
      tread (fun z => z) st' clone = tread (fun z => z) st0 clone.
Proof.
  eassert (Hm : GLBGCN_init (fun z => z) (ones_cfg_Z 1 2 true true) = Ok _)
    by (vm_compute; reflexivity).
  lazymatch type of Hm with
  | _ = Ok ?m =>
      eassert (Hp : prepare (TT := HeapZ) (GLBGCN_train false m)
                      (dense 0 [1; 33; 1; 1; 1]) [replicate 33 5%Z]
                    = Ok ((_, _), _))
        by (vm_compute; reflexivity)
  end.
  eexists _, _, _, _. split; [exact Hm|]. split; [exact Hp|].
  destruct (feature_clone_never_modified Hm Hp) as (_ & Hv & H).
  split; [exact Hv|].
  intros j s' st' Hrun. exact (proj1 (proj2 (H j s' st' Hrun))).
Defined.





Lemma forward_heap_refines_shape_witness :
  exists m,
    GLBGCN_init (fun z => z) (ones_cfg_Z 1 2 true true) = Ok m /\
    forall s,
      forward_shape (GLBGCN_train false m) [1; 33; 2; 1; 1] = Ok s
      <-> exists y st',
            forward_Z (GLBGCN_train false m) (dense 0 [1; 33; 2; 1; 1])
              [replicate 66 5%Z] = Ok (y, st') /\ sizes y = s.
Proof.
  eassert (Hm : GLBGCN_init (fun z => z) (ones_cfg_Z 1 2 true true) = Ok _)
    by (vm_compute; reflexivity).
  eexists. split; [exact Hm|].
  refine (proj1 (proj2
    (forward_heap_refines_shape (fun z => z) Z.add Z.mul (Z.max 0)
       (fun _ => 0%Z) (fun _ => 0%Z) (const_kernel 0%Z) (const_kernel 0%Z)
       (const_kernel 0%Z) (const_kernel 0%Z) _
       (x := dense 0 [1; 33; 2; 1; 1]) (st := [replicate 66 5%Z]) _))).
  unfold valid. simpl. lia.
Defined.

Lemma forward_never_assertion_witness :
  exists m,
    GLBGCN_init (fun z => z) (ones_cfg_Z 1 2 true true) = Ok m /\
    forall s, forward_shape (GLBGCN_train true m) s <> Err AssertionError.
Proof.
  eassert (Hm : GLBGCN_init (fun z => z) (ones_cfg_Z 1 2 true true) = Ok _)
    by (vm_compute; reflexivity).
  eexists. split; [exact Hm|].
  exact (proj1 (forward_never_assertion Z.add Z.mul (Z.max 0)
                  (fun _ => 0%Z) (fun _ => 0%Z) (const_kernel 0%Z)
                  (const_kernel 0%Z) (const_kernel 0%Z) (const_kernel 0%Z)
                  true Hm)).
Defined.


Lemma block_schedule_witness :
  exists m,
    GLBGCN_init (fun z => z) (ones_cfg_Z 3 26 true true) = Ok m /\
    map (fun b => dropout_rates b) (st_gcn_networks m) = replicate 10 [0%Z].
Proof.
  eassert (Hm : GLBGCN_init (fun z => z) (ones_cfg_Z 3 26 true true) = Ok _)
    by (vm_compute; reflexivity).
  eexists. split; [exact Hm|].
  exact (proj1 (proj2 (block_schedule Hm))).
Defined.



